(** * Multipart polygon resolution (polygon_processors/multipart_relabeller.py)

    A shallow embedding of [MultipartPolygonRelabeller]: the contiguity
    test, the one- and two-neighbour searches, the attribute merge, the
    identifier allocator and the resolution loop, followed by the properties
    the specification states about them.

    Modelling conventions.
    - A GeoDataFrame is a list of rows; the index label of a row is carried
      next to it as a natural number.
    - Numeric columns hold exact rationals ([Q]); the rounding of binary
      floating point is not modelled.
    - Geometry (shapely) is an interface: [touches], the length of the
      intersection of two boundaries, and union.  A small grid geometry at
      the end of the definitions instantiates it for concrete runs.
    - Python exceptions are [None] in the error/state monad [M]. *)

From Stdlib Require Import List Bool Arith ZArith QArith Lia Lqa.
From Stdlib Require Import Ascii String DecimalString.
Import ListNotations.

Set Implicit Arguments.

(** ** Python strings *)

Module PyStr.

Open Scope string_scope.

(** [s[:n]] *)
Definition take (n : nat) (s : string) : string := substring 0 n s.

(** [s[:-n]] *)
Definition drop_last (n : nat) (s : string) : string :=
  substring 0 (String.length s - n) s.

(** [s[-n:]] *)
Definition last (n : nat) (s : string) : string :=
  substring (String.length s - n) n s.

(** [s.startswith(p)] *)
Definition startswith (p s : string) : bool := prefix p s.

Fixpoint replicate (n : nat) (c : ascii) : string :=
  match n with
  | O => EmptyString
  | S k => String c (replicate k c)
  end.

(** [s.ljust(width, c)]: pads on the right, never shortens. *)
Definition ljust (width : nat) (c : ascii) (s : string) : string :=
  s ++ replicate (width - String.length s) c.

(** [s.zfill(width)]: zeros go after a leading sign. *)
Definition zfill (width : nat) (s : string) : string :=
  let zeros := replicate (width - String.length s) "0"%char in
  match s with
  | String "+"%char r => String "+"%char (zeros ++ r)
  | String "-"%char r => String "-"%char (zeros ++ r)
  | _ => zeros ++ s
  end.

Definition digit_of_ascii (c : ascii) : option Z :=
  let n := nat_of_ascii c in
  if (48 <=? n)%nat && (n <=? 57)%nat then Some (Z.of_nat (n - 48)) else None.

Fixpoint parse_digits (s : string) (acc : Z) : option Z :=
  match s with
  | EmptyString => Some acc
  | String c r =>
      match digit_of_ascii c with
      | Some d => parse_digits r (10 * acc + d)
      | None => None
      end
  end.

(** [int(s)] on an optional sign followed by ASCII digits; anything else is
    a ValueError.  Python also accepts blanks around the number and single
    underscores between digits, where this parser raises: the two agree on
    strings of ASCII letters and digits, and the properties about raising
    are stated for such identifiers. *)
Definition int (s : string) : option Z :=
  match s with
  | EmptyString => None
  | String "-"%char EmptyString => None
  | String "+"%char EmptyString => None
  | String "-"%char r => option_map Z.opp (parse_digits r 0)
  | String "+"%char r => parse_digits r 0
  | _ => parse_digits s 0
  end.

(** [str(z)] for an integer: decimal digits, with a minus sign in front of
    a negative number. *)
Definition str (z : Z) : string := NilZero.string_of_int (Z.to_int z).

(** ["_".join(l)] *)
Fixpoint join (sep : string) (l : list string) : string :=
  match l with
  | [] => EmptyString
  | [x] => x
  | x :: r => x ++ sep ++ join sep r
  end.

End PyStr.

(** ** Small list utilities *)

(** [enumerate(l)] / [df.iterrows()]: every element with its position. *)
Definition enumerate {A : Type} (l : list A) : list (nat * A) :=
  combine (seq 0 (List.length l)) l.

Definition mem_nat (i : nat) (l : list nat) : bool := existsb (Nat.eqb i) l.

Definition mem_str (s : string) (l : list string) : bool :=
  existsb (String.eqb s) l.

(** Equality of two Python sets held as lists. *)
Definition set_eqb (a b : list nat) : bool :=
  forallb (fun i => mem_nat i b) a && forallb (fun i => mem_nat i a) b.

(** [set.add] *)
Definition set_add (s : string) (l : list string) : list string :=
  if mem_str s l then l else s :: l.

(** [max(l, default=d)] *)
Definition max_default (d : Z) (l : list Z) : Z :=
  match l with
  | [] => d
  | x :: r => fold_left Z.max r x
  end.

(** All pairs [(l[i], l[j])] with [i < j], in the order of the nested
    [for i in range(n): for j in range(i + 1, n)] loops. *)
Fixpoint pairs_of {A : Type} (l : list A) : list (A * A) :=
  match l with
  | [] => []
  | x :: r => map (pair x) r ++ pairs_of r
  end.

(** A stable sort, as [list.sort] is.  [sort_by] inserts the elements from
    the last to the first, and [insert_by] puts [x] in front of the first
    element that is not strictly ahead of it, so that equal elements keep
    their order. *)
Section StableSort.
Variable A : Type.
(** [before y x]: [y] comes strictly ahead of [x] in the order. *)
Variable before : A -> A -> bool.

Fixpoint insert_by (x : A) (l : list A) : list A :=
  match l with
  | [] => [x]
  | y :: r => if before y x then y :: insert_by x r else x :: y :: r
  end.

Fixpoint sort_by (l : list A) : list A :=
  match l with
  | [] => []
  | x :: r => insert_by x (sort_by r)
  end.
End StableSort.

Definition Qlt_bool (a b : Q) : bool := negb (Qle_bool b a).

(** ** Error and state monad

    The state is [self.generated_ids]; [None] is a raised exception. *)

Definition M (A : Type) : Type := list string -> option (A * list string).

Definition ret {A : Type} (a : A) : M A := fun st => Some (a, st).

Definition bind {A B : Type} (m : M A) (k : A -> M B) : M B :=
  fun st => match m st with
            | Some (a, st') => k a st'
            | None => None
            end.

Definition raise {A : Type} : M A := fun _ => None.

Definition lift_option {A : Type} (o : option A) : M A :=
  match o with
  | Some a => ret a
  | None => raise
  end.

Notation "x <- m ;; k" := (bind m (fun x => k))
  (at level 61, m at next level, right associativity).

(** ** Geometry interface (shapely) *)

Class Geometry (G : Type) : Type := {
  (** [g1.touches(g2)] *)
  touches : G -> G -> bool;
  (** [g1.boundary.intersection(g2.boundary).length] *)
  shared_length : G -> G -> Q;
  (** [g1.union(g2)] *)
  union : G -> G -> G;
  (** [GeoSeries.union_all()] *)
  union_all : list G -> G
}.

(** ** Rows *)

Record row (G : Type) : Type := mkRow {
  geometry : G;
  (** the column named by [poly_id] *)
  poly_id : string;
  (** the column named by [orig_id_col] *)
  orig_id : string;
  was_multipart : option Z;
  comb_adj : option Z;
  (** the numeric columns, by column name *)
  num : string -> Q;
  (** every other column (commune, commune_id, sregion_id, zone_type, ...) *)
  meta : list (string * string)
}.

Arguments mkRow {G}.
Arguments geometry {G}.
Arguments poly_id {G}.
Arguments orig_id {G}.
Arguments was_multipart {G}.
Arguments comb_adj {G}.
Arguments num {G}.
Arguments meta {G}.

(** [row[cols] = vals] on the numeric columns. *)
Definition set_cols (cols : list string) (vals : string -> Q)
    (f : string -> Q) : string -> Q :=
  fun c => if mem_str c cols then vals c else f c.

(** ** MultipartPolygonRelabeller *)

Section Relabeller.

Context {G : Type} `{Geometry G}.

(** [self.num_cols], [self.count_cols] and the identifiers of
    [self.data[self.poly_id]]. *)
Variable num_cols : list string.
Variable count_cols : list string.
Variable data_ids : list string.

(** *** _generate_new_id *)

(** [[int(x[-3:]) for x in used_ids if str(x).startswith(base_id)]] *)
Fixpoint suffixes_of (base_id : string) (used_ids : list string)
    : option (list Z) :=
  match used_ids with
  | [] => Some []
  | x :: r =>
      if PyStr.startswith base_id x then
        match PyStr.int (PyStr.last 3 x), suffixes_of base_id r with
        | Some n, Some l => Some (n :: l)
        | _, _ => None
        end
      else suffixes_of base_id r
  end.

Definition _generate_new_id (orig_id : string) : M string :=
  fun generated_ids =>
    let base_id := PyStr.drop_last 2 orig_id in
    let used_ids := data_ids ++ generated_ids in
    match suffixes_of base_id used_ids with
    | None => None
    | Some suffixes =>
        let next_suffix := (max_default 0 suffixes + 1)%Z in
        let new_id := (base_id ++ PyStr.zfill 3 (PyStr.str next_suffix))%string in
        Some (new_id, set_add new_id generated_ids)
    end.

(** *** _are_parts_contiguous *)

(** The test of the inner loop body: [g1.touches(g2)] and a shared
    boundary of at least [min_shared_len]. *)
Definition touches_min (g1 g2 : G) (min_shared_len : Q) : bool :=
  touches g1 g2 && Qle_bool min_shared_len (shared_length g1 g2).

(** The inner loop: [touches_any] for part [i]. *)
Definition touches_any_sibling (geoms : list G) (min_shared_len : Q)
    (i : nat) (g1 : G) : bool :=
  existsb (fun jg => negb (i =? fst jg)%nat
                     && touches_min g1 (snd jg) min_shared_len)
          (enumerate geoms).

Definition _are_parts_contiguous (parts : list (nat * row G))
    (min_shared_len : Q) : bool :=
  let geoms := map (fun p => geometry (snd p)) parts in
  forallb (fun ig =>
             negb (negb (touches_any_sibling geoms min_shared_len
                           (fst ig) (snd ig))
                   && (1 <? List.length geoms)%nat))
          (enumerate geoms).

(** *** _find_best_adjacent_polygon *)

(** The inner loop over the parts for one candidate: [None] when [valid]
    ends false, otherwise the accumulated [total_shared]. *)
Fixpoint shared_with_all (cand : G) (geoms : list G) (min_shared_len : Q)
    (total_shared : Q) : option Q :=
  match geoms with
  | [] => Some total_shared
  | geom :: rest =>
      if negb (touches cand geom) then None
      else
        let shared := shared_length cand geom in
        if Qlt_bool shared min_shared_len then None
        else shared_with_all cand rest min_shared_len (total_shared + shared)
  end.

(** One iteration of the outer loop on [(best_idx, best_shared)]. *)
Definition best_step (geoms : list G) (min_shared_len : Q)
    (best : option nat * Q) (ic : nat * row G) : option nat * Q :=
  match shared_with_all (geometry (snd ic)) geoms min_shared_len 0 with
  | Some total_shared =>
      if Qlt_bool (snd best) total_shared
      then (Some (fst ic), total_shared)
      else best
  | None => best
  end.

Definition _find_best_adjacent_polygon (parts : list (nat * row G))
    (candidates : list (row G)) (min_shared_len : Q) : option nat :=
  let geoms := map (fun p => geometry (snd p)) parts in
  fst (fold_left (best_step geoms min_shared_len)
                 (enumerate candidates) (None, 0)).

(** *** _merge_parts_and_targets *)

(** [sum(f(t) for t in targets)] *)
Definition sum_over (targets : list (row G)) (f : row G -> Q) : Q :=
  fold_left (fun acc t => acc + f t) targets 0.

Definition avg_cols : list string :=
  filter (fun c => negb (mem_str c count_cols)) num_cols.

(** [counts_sum], column by column. *)
Definition counts_sum (base_dup : row G) (targets : list (row G))
    : string -> Q :=
  fun c => fold_left (fun acc t => acc + num t c) targets (num base_dup c).

(** [weighted_avg], column by column. *)
Definition weighted_avg (base_dup : row G) (targets : list (row G))
    (pop_col : string) : string -> Q :=
  let pop_dup := num base_dup pop_col in
  let pop_targets := sum_over targets (fun t => num t pop_col) in
  let total_pop := pop_dup + pop_targets in
  fun c =>
    if Qlt_bool 0 total_pop then
      let dup_avg := num base_dup c in
      let targets_avg :=
        if Qlt_bool 0 pop_targets
        then sum_over targets (fun t => num t c * num t pop_col) / pop_targets
        else dup_avg in
      dup_avg * (pop_dup / total_pop) + targets_avg * (pop_targets / total_pop)
    else num base_dup c.

Definition merged_geometry (parts : list (nat * row G))
    (targets : list (row G)) : G :=
  fold_left (fun g t => union g (geometry t)) targets
            (union_all (map (fun p => geometry (snd p)) parts)).

Definition _merge_parts_and_targets (parts : list (nat * row G))
    (targets : list (row G)) (orig_id_key : string) (pop_col : string)
    : M (row G) :=
  match parts, targets with
  | (_, base_dup) :: _, target0 :: _ =>
      let new_geom := merged_geometry parts targets in
      let merged_orig_id :=
        PyStr.join "_" (orig_id base_dup :: map orig_id targets) in
      new_id <- _generate_new_id orig_id_key ;;
      ret {| geometry := new_geom;
             poly_id := new_id;
             orig_id := merged_orig_id;
             was_multipart := Some 1%Z;
             comb_adj := Some (Z.of_nat (List.length targets));
             num := set_cols avg_cols (weighted_avg base_dup targets pop_col)
                      (set_cols count_cols (counts_sum base_dup targets)
                         (num target0));
             meta := meta target0 |}
  | _, _ => raise
  end.

(** *** _merge_remaining_with_two_targets *)

(** [touching_parts]: the labels of the parts the candidate touches. *)
Definition touching_parts (cand : row G) (parts : list (nat * row G))
    : list nat :=
  map fst (filter (fun p => touches (geometry cand) (geometry (snd p)))
                  parts).

(** STEP 1: the candidates touching at least one part, each with its
    index label and the parts it touches. *)
Definition touching_candidates (parts : list (nat * row G))
    (non_dup : list (row G)) : list (nat * row G * list nat) :=
  flat_map
    (fun ic =>
       if existsb (fun p => touches (geometry (snd ic)) (geometry (snd p)))
                  parts
       then [(fst ic, snd ic, touching_parts (snd ic) parts)]
       else [])
    (enumerate non_dup).

(** [parts.loc[part_idx]] *)
Definition parts_loc (parts : list (nat * row G)) (part_idx : nat)
    : option (row G) :=
  option_map snd (find (fun p => (fst p =? part_idx)%nat) parts).

(** The loop [for part_idx in touching_parts: total_shared += ...]; the
    labels come from [parts], so the lookup always succeeds. *)
Definition add_shared_with_parts (cand : row G) (parts : list (nat * row G))
    (labels : list nat) (total_shared : Q) : Q :=
  fold_left
    (fun acc part_idx =>
       match parts_loc parts part_idx with
       | Some part => acc + shared_length (geometry cand) (geometry part)
       | None => acc
       end)
    labels total_shared.

(** The body of the double loop of STEP 2: the entry appended to
    [valid_pairs], if any. *)
Definition valid_pair (parts : list (nat * row G)) (min_shared_len : Q)
    (c1 c2 : nat * row G * list nat) : list (nat * nat * Q * Q) :=
  let '(idx1, cand1, touching_parts1) := c1 in
  let '(idx2, cand2, touching_parts2) := c2 in
  let all_parts_idx := map fst parts in
  if negb (touches (geometry cand1) (geometry cand2)) then []
  else
    let shared_len := shared_length (geometry cand1) (geometry cand2) in
    if Qlt_bool shared_len min_shared_len then []
    else if negb (set_eqb (touching_parts1 ++ touching_parts2) all_parts_idx)
    then []
    else
      let total_shared :=
        add_shared_with_parts cand2 parts touching_parts2
          (add_shared_with_parts cand1 parts touching_parts1 0) in
      [(idx1, idx2, total_shared, shared_len)].

Definition valid_pairs (parts : list (nat * row G)) (non_dup : list (row G))
    (min_shared_len : Q) : list (nat * nat * Q * Q) :=
  flat_map (fun cc => valid_pair parts min_shared_len (fst cc) (snd cc))
           (pairs_of (touching_candidates parts non_dup)).

(** Tuple comparison of the sort keys [(x[2], x[3])]. *)
Definition key_ltb (x y : nat * nat * Q * Q) : bool :=
  let '(_, _, t1, s1) := x in
  let '(_, _, t2, s2) := y in
  if Qeq_bool t1 t2 then Qlt_bool s1 s2 else Qlt_bool t1 t2.

(** [valid_pairs.sort(key=..., reverse=True)]: stable, largest key first. *)
Definition sort_pairs (l : list (nat * nat * Q * Q))
    : list (nat * nat * Q * Q) :=
  sort_by (fun y x => key_ltb x y) l.

(** STEPS 1 to 3: the pair of index labels chosen, if any. *)
Definition two_target_search (parts : list (nat * row G))
    (non_dup : list (row G)) (min_shared_len : Q) : option (nat * nat) :=
  if (List.length (touching_candidates parts non_dup) <? 2)%nat then None
  else
    match sort_pairs (valid_pairs parts non_dup min_shared_len) with
    | [] => None
    | (best_idx1, best_idx2, _, _) :: _ => Some (best_idx1, best_idx2)
    end.

Definition _merge_remaining_with_two_targets (parts : list (nat * row G))
    (non_dup : list (row G)) (orig_id_key : string) (pop_col : string)
    (min_shared_len : Q) : M (option (row G * list nat)) :=
  match two_target_search parts non_dup min_shared_len with
  | None => ret None
  | Some (best_idx1, best_idx2) =>
      target1 <- lift_option (nth_error non_dup best_idx1) ;;
      target2 <- lift_option (nth_error non_dup best_idx2) ;;
      new_row <- _merge_parts_and_targets parts [target1; target2]
                   orig_id_key pop_col ;;
      ret (Some (new_row, [best_idx1; best_idx2]))
  end.

(** *** _resolve_multipart_by_contiguity *)

(** [dup_gdf.groupby(orig_id_col)]: the groups in ascending key order,
    the rows of a group in frame order with their index labels. *)
Definition groupby (dup : list (row G)) : list (string * list (nat * row G)) :=
  let keys := sort_by String.ltb (nodup string_dec (map orig_id dup)) in
  map (fun k =>
         (k, filter (fun p => String.eqb (orig_id (snd p)) k) (enumerate dup)))
      keys.

(** The three lists the loop appends to. *)
Record loop_state : Type := mkLoop {
  resolved_rows : list (row G);
  consumed_dup_idx : list nat;
  consumed_nondup_idx : list nat
}.

(** STEP 1 of the loop body: the row of a directly contiguous group. *)
Definition direct_union_row (orig_id_key : string) (first : row G)
    (parts : list (nat * row G)) : row G :=
  {| geometry := union_all (map (fun p => geometry (snd p)) parts);
     poly_id := orig_id_key;
     orig_id := orig_id first;
     was_multipart := Some 1%Z;
     comb_adj := Some 0%Z;
     num := num first;
     meta := meta first |}.

(** One iteration of [for orig_id, parts in dup_gdf.groupby(...)]. *)
Definition resolve_group (non_dup : list (row G)) (pop_col : string)
    (min_shared_len : Q) (acc : loop_state)
    (grp : string * list (nat * row G)) : M loop_state :=
  let '(orig_id_key, parts) := grp in
  if _are_parts_contiguous parts min_shared_len then
    match parts with
    | (_, first) :: _ =>
        ret {| resolved_rows :=
                 resolved_rows acc ++ [direct_union_row orig_id_key first parts];
               consumed_dup_idx := consumed_dup_idx acc ++ map fst parts;
               consumed_nondup_idx := consumed_nondup_idx acc |}
    | [] => raise
    end
  else
    match _find_best_adjacent_polygon parts non_dup min_shared_len with
    | Some candidate_idx =>
        target <- lift_option (nth_error non_dup candidate_idx) ;;
        new_row <- _merge_parts_and_targets parts [target]
                     orig_id_key pop_col ;;
        ret {| resolved_rows := resolved_rows acc ++ [new_row];
               consumed_dup_idx := consumed_dup_idx acc ++ map fst parts;
               consumed_nondup_idx :=
                 consumed_nondup_idx acc ++ [candidate_idx] |}
    | None =>
        result <- _merge_remaining_with_two_targets parts non_dup
                    orig_id_key pop_col min_shared_len ;;
        match result with
        | Some (new_row, used_indices) =>
            ret {| resolved_rows := resolved_rows acc ++ [new_row];
                   consumed_dup_idx := consumed_dup_idx acc ++ map fst parts;
                   consumed_nondup_idx :=
                     consumed_nondup_idx acc ++ used_indices |}
        | None => ret acc
        end
    end.

Fixpoint resolve_loop (non_dup : list (row G)) (pop_col : string)
    (min_shared_len : Q) (groups : list (string * list (nat * row G)))
    (acc : loop_state) : M loop_state :=
  match groups with
  | [] => ret acc
  | grp :: rest =>
      acc' <- resolve_group non_dup pop_col min_shared_len acc grp ;;
      resolve_loop non_dup pop_col min_shared_len rest acc'
  end.

(** [df.drop(index=idx)] *)
Definition drop_index (df : list (row G)) (idx : list nat) : list (row G) :=
  map snd (filter (fun p => negb (mem_nat (fst p) idx)) (enumerate df)).

(** The columns of [keep_cols] that are not fields of the record. *)
Definition keep_meta : list string :=
  ["commune"; "commune_id"; "sregion_id"]%string.

(** The column filter, then [str[:15]] and [str.ljust(15, "0")] on the
    identifier. *)
Definition finalize_row (r : row G) : row G :=
  {| geometry := geometry r;
     poly_id := PyStr.ljust 15 "0" (PyStr.take 15 (poly_id r));
     orig_id := orig_id r;
     was_multipart := was_multipart r;
     comb_adj := comb_adj r;
     num := num r;
     meta := filter (fun kv => mem_str (fst kv) keep_meta) (meta r) |}.

(** Returns [(resolved_gdf, remaining_dup)]. *)
Definition _resolve_multipart_by_contiguity (dup non_dup : list (row G))
    (pop_col : string) (min_shared_len : Q)
    : M (list (row G) * list (row G)) :=
  acc <- resolve_loop non_dup pop_col min_shared_len (groupby dup)
           (mkLoop [] [] []) ;;
  let remaining_dup := drop_index dup (consumed_dup_idx acc) in
  let remaining_nondup := drop_index non_dup (consumed_nondup_idx acc) in
  let combined := remaining_nondup ++ resolved_rows acc in
  ret (map finalize_row combined, remaining_dup).

End Relabeller.

(** ** _relabel_multipart_blocks *)

Section PlainRelabel.

Context {G : Type}.

(** [self.id_length] *)
Variable id_length : nat.

(** Modelled from the spec: [identify_multipart_polygons] of
    base_processor.py, which is not among the sources, called with
    [keep_largest=False].  It partitions the records by how often their
    identifier occurs: the first component holds the records whose identifier
    occurs once, the second those whose identifier occurs more than once,
    both in frame order. *)
Definition identify_multipart_polygons (data : list (row G))
    : list (row G) * list (row G) :=
  let occurrences r := count_occ string_dec (map poly_id data) (poly_id r) in
  (filter (fun r => (occurrences r <=? 1)%nat) data,
   filter (fun r => (1 <? occurrences r)%nat) data).

(** [groupby(poly_id).cumcount() + 1] over the identifiers in frame order;
    [seen] holds the identifiers of the rows already passed. *)
Fixpoint cumcount1 (seen ids : list string) : list nat :=
  match ids with
  | [] => []
  | x :: r => (count_occ string_dec seen x + 1)%nat :: cumcount1 (x :: seen) r
  end.

(** [astype(int).astype(str)] on the identifier, copied to [orig_id].  The
    integer is unbounded here and of 64 bits in pandas, which raises from
    2^63 on: the properties about raising are stated for identifiers of at
    most 18 characters. *)
Definition normalise_id (r : row G) : option (row G) :=
  match PyStr.int (poly_id r) with
  | Some z =>
      Some {| geometry := geometry r;
              poly_id := PyStr.str z;
              orig_id := PyStr.str z;
              was_multipart := was_multipart r;
              comb_adj := comb_adj r;
              num := num r;
              meta := meta r |}
  | None => None
  end.

Fixpoint map_option {A B : Type} (f : A -> option B) (l : list A)
    : option (list B) :=
  match l with
  | [] => Some []
  | x :: r =>
      match f x, map_option f r with
      | Some y, Some ys => Some (y :: ys)
      | _, _ => None
      end
  end.

(** The identifier of a duplicated row: identifier, then the count as a
    string filled to two digits. *)
Definition suffixed_id (id : string) (count : nat) : string :=
  (id ++ PyStr.zfill 2 (PyStr.str (Z.of_nat count)))%string.

Definition with_id (id : string) (flag : Z) (r : row G) : row G :=
  {| geometry := geometry r;
     poly_id := id;
     orig_id := orig_id r;
     was_multipart := Some flag;
     comb_adj := comb_adj r;
     num := num r;
     meta := meta r |}.

(** The columns of [expected_cols] that are not fields of the record. *)
Definition expected_meta : list string :=
  ["commune_id"; "commune"; "zone_type"]%string.

(** [str.ljust(self.id_length, fillchar='0')] and the column filter. *)
Definition pad_row (r : row G) : row G :=
  {| geometry := geometry r;
     poly_id := PyStr.ljust id_length "0" (poly_id r);
     orig_id := orig_id r;
     was_multipart := was_multipart r;
     comb_adj := None;
     num := num r;
     meta := filter (fun kv => mem_str (fst kv) expected_meta) (meta r) |}.

Definition _relabel_multipart_blocks (data : list (row G))
    : option (list (row G)) :=
  match map_option normalise_id data with
  | None => None
  | Some data0 =>
      let '(singles, dup) := identify_multipart_polygons data0 in
      let dup' :=
        map (fun rc => with_id (suffixed_id (poly_id (fst rc)) (snd rc)) 1 (fst rc))
            (combine dup (cumcount1 [] (map poly_id dup))) in
      let original_ids := map (fun r => PyStr.drop_last 2 (poly_id r)) dup' in
      let singles' :=
        map (fun r => with_id (poly_id r) 0 r)
            (filter (fun r => negb (mem_str (poly_id r) original_ids)) singles) in
      Some (map pad_row (singles' ++ dup'))
  end.

End PlainRelabel.

(** ** A grid geometry

    Polygons made of unit squares of the integer grid, each square named by
    its lower-left corner.  It instantiates [Geometry] for concrete runs. *)

Module Grid.

Definition cell : Type := (Z * Z)%type.
Definition geom : Type := list cell.

Definition cell_eqb (a b : cell) : bool :=
  ((fst a =? fst b) && (snd a =? snd b))%Z.

Definition mem_cell (c : cell) (g : geom) : bool := existsb (cell_eqb c) g.

(** The two squares share a side. *)
Definition side_adjacent (a b : cell) : bool :=
  (Z.abs (fst a - fst b) + Z.abs (snd a - snd b) =? 1)%Z.

(** The two closed squares have a point in common. *)
Definition meet (a b : cell) : bool :=
  ((Z.abs (fst a - fst b) <=? 1) && (Z.abs (snd a - snd b) <=? 1))%Z.

Definition overlaps (g1 g2 : geom) : bool :=
  existsb (fun c => mem_cell c g2) g1.

(** Common points, but no common interior. *)
Definition grid_touches (g1 g2 : geom) : bool :=
  negb (overlaps g1 g2) && existsb (fun a => existsb (meet a) g2) g1.

(** For polygons without common interior: the number of unit sides between
    a square of one and a square of the other. *)
Definition grid_shared_length (g1 g2 : geom) : Q :=
  inject_Z (Z.of_nat (List.length
    (filter (fun ab => side_adjacent (fst ab) (snd ab)) (list_prod g1 g2)))).

Definition grid_union (g1 g2 : geom) : geom :=
  g1 ++ filter (fun c => negb (mem_cell c g1)) g2.

Definition grid_union_all (l : list geom) : geom := fold_left grid_union l [].

#[export] Instance grid_geometry : Geometry geom := {|
  touches := grid_touches;
  shared_length := grid_shared_length;
  union := grid_union;
  union_all := grid_union_all
|}.

(** The squares of the rectangle [[x, x+w) x [y, y+h)]. *)
Definition rect (x y : Z) (w h : nat) : geom :=
  flat_map (fun i => map (fun j => (x + Z.of_nat i, y + Z.of_nat j)%Z) (seq 0 h))
           (seq 0 w).

(** A row with population [n_per], one averaged column and no other data. *)
Definition poly (g : geom) (id orig : string) (n_per avg : Q) : row geom :=
  {| geometry := g;
     poly_id := id;
     orig_id := orig;
     was_multipart := None;
     comb_adj := None;
     num := fun c => if String.eqb c "n_per" then n_per
                     else if String.eqb c "prom_escolaridad18" then avg
                     else 0;
     meta := [] |}.

End Grid.

(** ** Concrete inputs

    Blocks of the grid geometry, used to run the definitions.  Identifiers
    have the shape [_relabel_multipart_blocks] gives them: the original
    identifier followed by [00] for a single polygon and by the part number
    for the parts of a multipart one. *)

Module Sample.

Import Grid.
Open Scope string_scope.

Definition num_cols : list string :=
  ["n_per"; "n_vp_ocupada"; "prom_escolaridad18"].
Definition count_cols : list string := ["n_per"; "n_vp_ocupada"].

(** The default of [min_shared_len]. *)
Definition threshold : Q := 5.

(** Two groups of two parts each, on the west and on the east side of one
    single polygon [middle]; the parts of a group do not touch each other. *)
Definition west_a : row geom :=
  poly (rect 1 0 1 5) "1310101100100101" "13101011001001" 5 12.
Definition west_b : row geom :=
  poly (rect 1 6 1 5) "1310101100100102" "13101011001001" 5 12.
Definition east_a : row geom :=
  poly (rect 3 0 1 5) "1310101100100201" "13101011001002" 4 8.
Definition east_b : row geom :=
  poly (rect 3 6 1 5) "1310101100100202" "13101011001002" 4 8.
Definition middle : row geom :=
  poly (rect 2 0 1 11) "1310101100100300" "13101011001003" 7 10.

Definition two_groups : list (row geom) := [west_a; west_b; east_a; east_b].
Definition west_parts : list (nat * row geom) := [(0%nat, west_a); (1%nat, west_b)].
Definition east_parts : list (nat * row geom) := [(2%nat, east_a); (3%nat, east_b)].
Definition two_groups_ids : list string :=
  map poly_id ([middle] ++ two_groups).

(** A group whose two parts lie side by side. *)
Definition left_half : row geom :=
  poly (rect 0 0 1 5) "1310101100100401" "13101011001004" 5 12.
Definition right_half : row geom :=
  poly (rect 1 0 1 5) "1310101100100402" "13101011001004" 5 12.
Definition halves : list (nat * row geom) := [(0%nat, left_half); (1%nat, right_half)].

(** A group of population 50 in parts of population 20 and 30, value 12,
    next to a single polygon of population 50, value 20. *)
Definition part20 : row geom :=
  poly (rect 1 0 1 5) "1310101100100501" "13101011001005" 20 12.
Definition part30 : row geom :=
  poly (rect 1 6 1 5) "1310101100100502" "13101011001005" 30 12.
Definition neighbour50 : row geom :=
  poly (rect 2 0 1 11) "1310101100100600" "13101011001006" 50 20.
Definition parts_20_30 : list (nat * row geom) := [(0%nat, part20); (1%nat, part30)].

(** The same group with the population 50 on its first part. *)
Definition part50 : row geom :=
  poly (rect 1 0 1 5) "1310101100100501" "13101011001005" 50 12.
Definition parts_50 : list (nat * row geom) := [(0%nat, part50); (1%nat, part30)].

(** Three parts: A and B side by side along a boundary of length 10, C
    apart from both. *)
Definition strip_a : row geom :=
  poly (rect 0 0 1 10) "1310101100100701" "13101011001007" 9 11.
Definition strip_b : row geom :=
  poly (rect 1 0 1 10) "1310101100100702" "13101011001007" 9 11.
Definition island : row geom :=
  poly (rect 5 0 1 1) "1310101100100703" "13101011001007" 9 11.
Definition three_parts : list (nat * row geom) :=
  [(0%nat, strip_a); (1%nat, strip_b); (2%nat, island)].

(** Four parts in two separate adjacent pairs. *)
Definition strip_c : row geom :=
  poly (rect 5 0 1 10) "1310101100100703" "13101011001007" 9 11.
Definition strip_d : row geom :=
  poly (rect 6 0 1 10) "1310101100100704" "13101011001007" 9 11.
Definition two_pairs : list (nat * row geom) :=
  [(0%nat, strip_a); (1%nat, strip_b); (2%nat, strip_c); (3%nat, strip_d)].

(** Two parts, each touching one of two externals that share a boundary of
    length 8. *)
Definition far_west : row geom :=
  poly (rect (-1) 0 1 5) "1310101100100801" "13101011001008" 6 9.
Definition far_east : row geom :=
  poly (rect 2 0 1 5) "1310101100100802" "13101011001008" 6 9.
Definition ext_west : row geom :=
  poly (rect 0 0 1 8) "1310101100100900" "13101011001009" 3 10.
Definition ext_east : row geom :=
  poly (rect 1 0 1 8) "1310101100101000" "13101011001010" 2 14.
Definition far_parts : list (nat * row geom) := [(0%nat, far_west); (1%nat, far_east)].

(** Two groups with fifteen-digit original identifiers that agree on their
    first thirteen digits, each next to a single polygon of its own. *)
Definition long_a1 : row geom :=
  poly (rect 1 0 1 5) "13101011001001101" "131010110010011" 5 12.
Definition long_a2 : row geom :=
  poly (rect 1 6 1 5) "13101011001001102" "131010110010011" 5 12.
Definition long_b1 : row geom :=
  poly (rect 11 0 1 5) "13101011001001201" "131010110010012" 4 8.
Definition long_b2 : row geom :=
  poly (rect 11 6 1 5) "13101011001001202" "131010110010012" 4 8.
Definition long_n1 : row geom :=
  poly (rect 2 0 1 11) "1310101100100210" "131010110010021" 7 10.
Definition long_n2 : row geom :=
  poly (rect 12 0 1 11) "1310101100100220" "131010110010022" 3 9.
Definition long_dup : list (row geom) := [long_a1; long_a2; long_b1; long_b2].
Definition long_pool : list (row geom) := [long_n1; long_n2].
Definition long_ids : list string := map poly_id (long_pool ++ long_dup).

(** A block with a fourteen-digit identifier in nine parts along one single
    polygon, and a single polygon away from them. *)
Definition nine_parts : list (row geom) :=
  map (fun k => poly (rect (6 * Z.of_nat k) 0 5 1)
                     ("13101011001009" ++ PyStr.zfill 2 (PyStr.str (Z.of_nat (k + 1))))
                     "13101011001009" 5 12)
      (seq 0 9).
Definition nine_neighbour : row geom :=
  poly (rect 0 1 53 1) "1310101100105000" "13101011001050" 7 10.
Definition bystander : row geom :=
  poly (rect 0 10 1 1) "1310101100109100" "13101011001091" 2 9.
Definition nine_pool : list (row geom) := [nine_neighbour; bystander].
Definition nine_ids : list string := map poly_id (nine_pool ++ nine_parts).

(** Input of the plain relabel: a block with a fifteen-digit identifier in
    two parts, and a block with a fourteen-digit identifier in a hundred
    parts. *)
Definition raw (g : geom) (id : string) : row geom :=
  poly g id EmptyString 1 1.
Definition fifteen_digits : list (row geom) :=
  [raw (rect 0 0 1 1) "131010110010011"; raw (rect 2 0 1 1) "131010110010011"].
Definition hundred_parts : list (row geom) :=
  map (fun i => raw (rect (2 * Z.of_nat i) 0 1 1) "13101011001001") (seq 0 100).

End Sample.

(** ** Predicates used in the statements *)

Fixpoint Qsum (l : list Q) : Q :=
  match l with
  | [] => 0
  | x :: r => x + Qsum r
  end.

Section Predicates.

Context {G : Type} `{Geometry G}.

(** Part [i] of the group has a sibling that touches it along at least
    [min_shared_len]. *)
Definition has_touching_sibling (parts : list (nat * row G))
    (min_shared_len : Q) (i : nat) : Prop :=
  exists p j q,
    nth_error parts i = Some p /\ nth_error parts j = Some q /\ j <> i /\
    touches (geometry (snd p)) (geometry (snd q)) = true /\
    min_shared_len <= shared_length (geometry (snd p)) (geometry (snd q)).

(** Modelled from the spec: the strict mode of the contiguity classifier
    (sections 4.2 and 9), which the sources do not implement.  Parts are the
    nodes and [touches_min] the edges; the group is accepted when every part
    is reached from the first one by breadth-first search. *)
Definition strict_edge (geoms : list G) (min_shared_len : Q) (i j : nat)
    : bool :=
  negb (i =? j)%nat &&
  match nth_error geoms i, nth_error geoms j with
  | Some g1, Some g2 => touches_min g1 g2 min_shared_len
  | _, _ => false
  end.

(** Modelled from the spec: the parts reached from [visited] after
    [rounds] rounds of breadth-first search along [strict_edge]. *)
Fixpoint strict_reach (rounds : nat) (geoms : list G) (min_shared_len : Q)
    (visited : list nat) : list nat :=
  match rounds with
  | O => visited
  | S k =>
      let frontier :=
        filter (fun j => negb (mem_nat j visited)
                         && existsb (fun i => strict_edge geoms min_shared_len i j)
                                    visited)
               (seq 0 (List.length geoms)) in
      strict_reach k geoms min_shared_len (visited ++ frontier)
  end.

(** Modelled from the spec: the strict classifier accepts a group when the
    search from its first part reaches every part. *)
Definition are_parts_connected_strict (parts : list (nat * row G))
    (min_shared_len : Q) : bool :=
  let geoms := map (fun p => geometry (snd p)) parts in
  let n := List.length geoms in
  forallb (fun j => mem_nat j (strict_reach n geoms min_shared_len [0%nat]))
          (seq 0 n).



(** The candidate touches at least one part of the group. *)
Definition touches_some_part (parts : list (nat * row G)) (cand : row G)
    : Prop :=
  exists p, In p parts /\ touches (geometry cand) (geometry (snd p)) = true.

(** The sum of the candidate's shared-boundary lengths with the parts it
    touches. *)
Definition shared_with_touched (parts : list (nat * row G)) (cand : row G)
    : Q :=
  Qsum (map (fun p => shared_length (geometry cand) (geometry (snd p)))
            (filter (fun p => touches (geometry cand) (geometry (snd p)))
                    parts)).

(** The candidates at [i1 < i2] of the pool form a valid pair: both touch
    some part, they touch each other along at least [min_shared_len], and
    together they touch every part. *)
Definition pair_valid (parts : list (nat * row G)) (non_dup : list (row G))
    (min_shared_len : Q) (i1 i2 : nat) : Prop :=
  exists c1 c2,
    (i1 < i2)%nat /\
    nth_error non_dup i1 = Some c1 /\ nth_error non_dup i2 = Some c2 /\
    touches_some_part parts c1 /\ touches_some_part parts c2 /\
    touches (geometry c1) (geometry c2) = true /\
    min_shared_len <= shared_length (geometry c1) (geometry c2) /\
    forall p, In p parts ->
      touches (geometry c1) (geometry (snd p)) = true \/
      touches (geometry c2) (geometry (snd p)) = true.

(** The ranking keys of a pair: the total shared boundary with the touched
    parts, then the shared boundary between the two candidates. *)
Definition pair_score (parts : list (nat * row G)) (non_dup : list (row G))
    (i1 i2 : nat) : Q :=
  match nth_error non_dup i1, nth_error non_dup i2 with
  | Some c1, Some c2 => shared_with_touched parts c1 + shared_with_touched parts c2
  | _, _ => 0
  end.

Definition pair_shared (non_dup : list (row G)) (i1 i2 : nat) : Q :=
  match nth_error non_dup i1, nth_error non_dup i2 with
  | Some c1, Some c2 => shared_length (geometry c1) (geometry c2)
  | _, _ => 0
  end.

(** The count the specification states for a resolved group: the sum of
    the column over all parts of the group plus all absorbed candidates. *)
Definition stated_count (parts : list (nat * row G)) (targets : list (row G))
    (c : string) : Q :=
  Qsum (map (fun p => num (snd p) c) parts) + Qsum (map (fun t => num t c) targets).

(** The weighted average the specification states: the base weight is the
    total population of the whole part-group, the weight of an absorbed
    candidate its own population. *)
Definition stated_weighted_avg (base_dup : row G) (parts : list (nat * row G))
    (targets : list (row G)) (pop_col c : string) : Q :=
  let pop_group := Qsum (map (fun p => num (snd p) pop_col) parts) in
  let pop_targets := Qsum (map (fun t => num t pop_col) targets) in
  (num base_dup c * pop_group
   + Qsum (map (fun t => num t c * num t pop_col) targets))
  / (pop_group + pop_targets).

(** The pool candidates a group absorbs when it is searched against the
    pool [non_dup]. *)
Definition absorbed_by (parts : list (nat * row G)) (non_dup : list (row G))
    (min_shared_len : Q) : list nat :=
  if _are_parts_contiguous parts min_shared_len then []
  else
    match _find_best_adjacent_polygon parts non_dup min_shared_len with
    | Some i => [i]
    | None =>
        match two_target_search parts non_dup min_shared_len with
        | Some (i1, i2) => [i1; i2]
        | None => []
        end
    end.

End Predicates.

(** ** MultipartPolygonRelabeller.__init__ *)

(** The fields the constructor sets, [self.data] apart. *)
Record relabeller : Type := mkRelabeller {
  self_id_length : nat;
  self_num_cols : list string;
  self_count_cols : list string;
  self_generated_ids : list string
}.

(** [set(count_cols) - set(num_cols)] *)
Definition missing_cols (num_cols count_cols : list string) : list string :=
  filter (fun c => negb (mem_str c num_cols)) count_cols.

(** [None] is the ValueError of the subset check. *)
Definition relabeller_init (id_length : nat) (num_cols count_cols : list string)
    : option relabeller :=
  match missing_cols num_cols count_cols with
  | [] => Some {| self_id_length := id_length;
                  self_num_cols := num_cols;
                  self_count_cols := count_cols;
                  self_generated_ids := [] |}
  | _ :: _ => None
  end.

(** ** HiddenPolygonProcessor.find_hidden_polygons (hidden_polys.py) *)

(** The further shapely operations this function uses. *)
Class Overlay (G : Type) : Type := {
  (** [g1.intersects(g2)] *)
  intersects : G -> G -> bool;
  (** [g1 == g2] *)
  geom_eqb : G -> G -> bool;
  (** [g1.difference(g2)] *)
  difference : G -> G -> G;
  (** [g.is_empty] *)
  is_empty : G -> bool
}.

Section HiddenPolygons.

Context {G : Type} `{Overlay G}.

(** The body of the inner loop: what one [other_poly] appends. *)
Definition hidden_step (idx : nat) (poly other_poly : row G) : list (nat * G) :=
  if intersects (geometry poly) (geometry other_poly)
     && negb (geom_eqb (geometry poly) (geometry other_poly))
  then
    let diff := difference (geometry poly) (geometry other_poly) in
    if is_empty diff then [(idx, geometry poly)] else []
  else [].

(** Returns [(hidden_gdf, hidden_indices)]: the frame keeps the geometry
    column only, each row under the index label of the polygon appended. *)
Definition find_hidden_polygons (gdf : list (row G))
    : list (nat * G) * list nat :=
  let hidden_polygons :=
    flat_map (fun ip => flat_map (hidden_step (fst ip) (snd ip)) gdf)
             (enumerate gdf) in
  (hidden_polygons, map fst hidden_polygons).

(** [other_poly] makes [poly] hidden: they intersect, differ, and nothing
    of [poly] lies outside [other_poly]. *)
Definition hides (other_poly poly : row G) : bool :=
  intersects (geometry poly) (geometry other_poly)
  && negb (geom_eqb (geometry poly) (geometry other_poly))
  && is_empty (difference (geometry poly) (geometry other_poly)).

End HiddenPolygons.

(** ** Further predicates and inputs *)

Section MorePredicates.

Context {G : Type} `{Geometry G}.

(** The rows of the frame with original identifier [key], as the loop
    receives them. *)
Definition parts_of (dup : list (row G)) (key : string) : list (nat * row G) :=
  filter (fun p => String.eqb (orig_id (snd p)) key) (enumerate dup).

(** Some tier resolves the group. *)
Definition group_resolved (parts : list (nat * row G)) (non_dup : list (row G))
    (min_shared_len : Q) : bool :=
  _are_parts_contiguous parts min_shared_len
  || match absorbed_by parts non_dup min_shared_len with
     | [] => false
     | _ :: _ => true
     end.


End MorePredicates.

(** Identifiers made of ASCII letters and digits.  On such strings
    [PyStr.int] and Python's [int()] agree: both read a non-empty string of
    digits and reject everything else (blanks, underscores and signs, which
    [int()] treats in ways of its own, do not occur). *)
Definition ascii_digit (c : ascii) : bool :=
  let n := nat_of_ascii c in (48 <=? n)%nat && (n <=? 57)%nat.

Definition ascii_letter (c : ascii) : bool :=
  let n := nat_of_ascii c in
  ((65 <=? n)%nat && (n <=? 90)%nat) || ((97 <=? n)%nat && (n <=? 122)%nat).

Fixpoint string_forallb (f : ascii -> bool) (s : string) : bool :=
  match s with
  | EmptyString => true
  | String c r => f c && string_forallb f r
  end.

Definition ascii_alnum (s : string) : bool :=
  string_forallb (fun c => ascii_digit c || ascii_letter c) s.

(** A non-empty string of ASCII digits. *)
Definition ascii_decimal (s : string) : bool :=
  match s with
  | EmptyString => false
  | String _ _ => string_forallb ascii_digit s
  end.

Module GridOverlay.

Import Grid.

Definition grid_intersects (g1 g2 : geom) : bool :=
  existsb (fun a => existsb (meet a) g2) g1.

Fixpoint grid_geom_eqb (g1 g2 : geom) : bool :=
  match g1, g2 with
  | [], [] => true
  | a :: r1, b :: r2 => cell_eqb a b && grid_geom_eqb r1 r2
  | _, _ => false
  end.

Definition grid_difference (g1 g2 : geom) : geom :=
  filter (fun c => negb (mem_cell c g2)) g1.

Definition grid_is_empty (g : geom) : bool :=
  match g with
  | [] => true
  | _ :: _ => false
  end.

#[export] Instance grid_overlay : Overlay geom := {|
  intersects := grid_intersects;
  geom_eqb := grid_geom_eqb;
  difference := grid_difference;
  is_empty := grid_is_empty
|}.

End GridOverlay.

Module MoreSamples.

Import Grid.
Open Scope string_scope.

(** A large block, two small blocks inside it, a copy of the large block
    and a block apart. *)
Definition big : row geom := poly (rect 0 0 4 4) "1" "1" 1 1.
Definition inner_a : row geom := poly (rect 1 1 1 1) "2" "2" 1 1.
Definition inner_b : row geom := poly (rect 2 2 1 1) "3" "3" 1 1.
Definition big_copy : row geom := poly (rect 0 0 4 4) "4" "4" 1 1.
Definition apart : row geom := poly (rect 9 9 1 1) "5" "5" 1 1.
Definition nested : list (row geom) := [big; inner_a; inner_b; big_copy; apart].

(** Input of the plain relabel: three blocks, the second in two parts. *)
Definition plain_input : list (row geom) :=
  [Sample.raw (rect 0 0 1 1) "13101011001001";
   Sample.raw (rect 2 0 1 1) "13101011001002";
   Sample.raw (rect 4 0 1 1) "13101011001002";
   Sample.raw (rect 6 0 1 1) "13101011001003"].

(** Identifiers in use whose largest suffix under the base [1310101100]
    is 999. *)
Definition ids_at_999 : list string := ["1310101100998"; "1310101100999"].



(** The rows of [Sample.three_parts] as a frame. *)
Definition three_rows : list (row geom) :=
  [Sample.strip_a; Sample.strip_b; Sample.island].

End MoreSamples.

(** * Properties *)

Unset Implicit Arguments.

(** ** Auxiliary facts *)

Lemma Qlt_bool_iff (a b : Q) : Qlt_bool a b = true <-> a < b.
Proof.
  unfold Qlt_bool. rewrite negb_true_iff. split; intro Hab.
  - apply Qnot_le_lt. intro Hle. apply Qle_bool_iff in Hle. congruence.
  - destruct (Qle_bool b a) eqn:E; [|reflexivity].
    apply Qle_bool_iff in E. apply Qlt_not_le in Hab. contradiction.
Qed.

Lemma Qlt_bool_false_iff (a b : Q) : Qlt_bool a b = false <-> b <= a.
Proof.
  unfold Qlt_bool. rewrite negb_false_iff. apply Qle_bool_iff.
Qed.

Lemma In_combine_seq {A : Type} (l : list A) (s i : nat) (x : A) :
  In (i, x) (combine (seq s (List.length l)) l) <->
  (s <= i)%nat /\ nth_error l (i - s) = Some x.
Proof.
  revert s. induction l as [|y l IH]; intro s; simpl.
  - split; [tauto|]. intros [_ Hn]. destruct (i - s)%nat; discriminate.
  - rewrite IH. split.
    + intros [Heq | [Hle Hn]].
      * inversion Heq; subst. rewrite Nat.sub_diag. split; [lia|reflexivity].
      * split; [lia|]. replace (i - s)%nat with (S (i - S s)) by lia. exact Hn.
    + intros [Hle Hn]. destruct (Nat.eq_dec s i) as [->|Hne].
      * rewrite Nat.sub_diag in Hn. simpl in Hn. left. congruence.
      * right. split; [lia|].
        replace (i - s)%nat with (S (i - S s)) in Hn by lia. exact Hn.
Qed.

Lemma In_enumerate {A : Type} (l : list A) (i : nat) (x : A) :
  In (i, x) (enumerate l) <-> nth_error l i = Some x.
Proof.
  unfold enumerate. rewrite In_combine_seq, Nat.sub_0_r.
  split; [tauto | intro Hn; split; [lia | exact Hn]].
Qed.

Lemma enumerate_length {A : Type} (l : list A) :
  List.length (enumerate l) = List.length l.
Proof.
  unfold enumerate. rewrite length_combine, length_seq. apply Nat.min_id.
Qed.

Lemma map_snd_enumerate {A : Type} (l : list A) : map snd (enumerate l) = l.
Proof.
  unfold enumerate. generalize 0%nat.
  induction l as [|x l IH]; intro s; simpl; [reflexivity|].
  now rewrite IH.
Qed.

(** ** The contiguity classifier *)

Section Contiguity.

Context {G : Type} `{Geometry G}.

Lemma touches_min_iff (g1 g2 : G) (m : Q) :
  touches_min g1 g2 m = true <->
  touches g1 g2 = true /\ m <= shared_length g1 g2.
Proof.
  unfold touches_min. now rewrite andb_true_iff, Qle_bool_iff.
Qed.

Lemma touches_any_sibling_iff (parts : list (nat * row G)) (m : Q)
    (i : nat) (p : nat * row G) :
  nth_error parts i = Some p ->
  touches_any_sibling (map (fun p => geometry (snd p)) parts) m i
    (geometry (snd p)) = true <->
  has_touching_sibling parts m i.
Proof.
  intro Hp. unfold touches_any_sibling, has_touching_sibling.
  rewrite existsb_exists. split.
  - intros [[j g2] [Hin Hck]]. simpl in Hck.
    apply andb_true_iff in Hck as [Hne Ht].
    apply negb_true_iff, Nat.eqb_neq in Hne.
    apply touches_min_iff in Ht as [Ht Hlen].
    apply In_enumerate in Hin. rewrite nth_error_map in Hin.
    destruct (nth_error parts j) as [q|] eqn:Hq; [|discriminate].
    simpl in Hin. injection Hin as <-.
    exists p, j, q. repeat split; auto.
  - intros (p' & j & q & Hp' & Hq & Hne & Ht & Hlen).
    rewrite Hp in Hp'. injection Hp' as <-.
    exists (j, geometry (snd q)). split.
    + apply In_enumerate. rewrite nth_error_map, Hq. reflexivity.
    + simpl. apply andb_true_iff. split.
      * apply negb_true_iff, Nat.eqb_neq. congruence.
      * apply touches_min_iff. auto.
Qed.

(** The degree test the classifier performs on a group of several parts. *)
Lemma are_parts_contiguous_iff (parts : list (nat * row G)) (m : Q) :
  (1 < List.length parts)%nat ->
  (_are_parts_contiguous parts m = true <->
   forall i, (i < List.length parts)%nat -> has_touching_sibling parts m i).
Proof.
  intros Hlen. unfold _are_parts_contiguous.
  rewrite forallb_forall. rewrite length_map.
  apply Nat.ltb_lt in Hlen. rewrite Hlen. split.
  - intros Hall i Hi.
    destruct (nth_error parts i) as [p|] eqn:Hp;
      [|apply nth_error_None in Hp; lia].
    specialize (Hall (i, geometry (snd p))).
    rewrite In_enumerate, nth_error_map, Hp in Hall.
    specialize (Hall eq_refl). simpl in Hall.
    rewrite andb_true_r, negb_involutive in Hall.
    now apply (touches_any_sibling_iff parts m i p Hp).
  - intros Hall [i g] Hin. simpl.
    rewrite andb_true_r, negb_involutive.
    apply In_enumerate in Hin. rewrite nth_error_map in Hin.
    destruct (nth_error parts i) as [p|] eqn:Hp; [|discriminate].
    simpl in Hin. injection Hin as <-.
    apply (touches_any_sibling_iff parts m i p Hp).
    apply Hall. apply nth_error_Some. congruence.
Qed.

(** C7. [_are_parts_contiguous] accepts every single-part group, and accepts
    a group of more than one part exactly when every part has at least one
    sibling part that touches it with a shared boundary of at least the
    threshold: a per-part degree test, not connectivity of the whole
    adjacency graph. *)
Theorem are_parts_contiguous_degree (min_shared_len : Q) :
  (forall p : nat * row G, _are_parts_contiguous [p] min_shared_len = true) /\
  (forall parts : list (nat * row G),
      (1 < List.length parts)%nat ->
      (_are_parts_contiguous parts min_shared_len = true <->
       forall i, (i < List.length parts)%nat ->
                 has_touching_sibling parts min_shared_len i)).
Proof.
  split.
  - intro p. reflexivity.
  - intros parts Hlen. now apply are_parts_contiguous_iff.
Qed.

End Contiguity.

(** ** The weak-contiguity edge case *)

Section WeakContiguity.

Context {G : Type} `{Geometry G}.

(** A part without a touching sibling makes the shipped classifier reject
    a group of more than one part. *)
Lemma isolated_part_rejected (parts : list (nat * row G)) (m : Q) (i : nat) :
  (1 < List.length parts)%nat -> (i < List.length parts)%nat ->
  ~ has_touching_sibling parts m i ->
  _are_parts_contiguous parts m = false.
Proof.
  intros Hlen Hi Hiso.
  destruct (_are_parts_contiguous parts m) eqn:E; [|reflexivity].
  exfalso. apply Hiso.
  now apply (proj1 (are_parts_contiguous_iff parts m Hlen) E).
Qed.

(** C8 (amended). In a three-part group where A and B touch each other along
    a shared boundary of length 10, at least the threshold, and C touches no
    sibling, the shipped classifier rejects the group, because C has no
    touching sibling; the connectivity-based strict classifier rejects it as
    well. *)
Theorem isolated_third_part_rejected (a b c : nat * row G) (m : Q) :
  touches (geometry (snd a)) (geometry (snd b)) = true ->
  touches (geometry (snd b)) (geometry (snd a)) = true ->
  shared_length (geometry (snd a)) (geometry (snd b)) == 10 ->
  shared_length (geometry (snd b)) (geometry (snd a)) == 10 ->
  m <= 10 ->
  touches (geometry (snd c)) (geometry (snd a)) = false ->
  touches (geometry (snd c)) (geometry (snd b)) = false ->
  touches (geometry (snd a)) (geometry (snd c)) = false ->
  touches (geometry (snd b)) (geometry (snd c)) = false ->
  _are_parts_contiguous [a; b; c] m = false /\
  are_parts_connected_strict [a; b; c] m = false.
Proof.
  intros Hab Hba Sab Sba Hm Hca Hcb Hac Hbc. split.
  - apply (isolated_part_rejected [a; b; c] m 2); simpl; try lia.
    intros (p & j & q & Hp & Hq & Hne & Ht & _).
    simpl in Hp. injection Hp as <-.
    destruct j as [|[|[|j]]]; simpl in Hq.
    + injection Hq as <-. congruence.
    + injection Hq as <-. congruence.
    + congruence.
    + destruct j; discriminate.
  - assert (E : Qle_bool m (shared_length (geometry (snd a)) (geometry (snd b)))
                = true).
    { apply Qle_bool_iff. rewrite Sab. exact Hm. }
    unfold are_parts_connected_strict, strict_reach, strict_edge, touches_min.
    repeat (simpl; rewrite ?Hab, ?Hac, ?Hbc, ?Hba, ?E).
    reflexivity.
Qed.

End WeakContiguity.

(** ** The single-neighbour search *)

Lemma fold_left_Qplus {A : Type} (f : A -> Q) (l : list A) (acc : Q) :
  fold_left (fun a x => a + f x) l acc == acc + Qsum (map f l).
Proof.
  revert acc. induction l as [|x l IH]; intro acc; simpl.
  - lra.
  - rewrite IH. lra.
Qed.


Section SingleNeighbour.

Context {G : Type} `{Geometry G}.









End SingleNeighbour.

(** ** The two-neighbour search *)

Section SortFacts.

Variable A : Type.
Variable before : A -> A -> bool.

Lemma In_insert_by (x y : A) (l : list A) :
  In y (insert_by before x l) <-> y = x \/ In y l.
Proof.
  induction l as [|z l IH]; simpl.
  - intuition congruence.
  - destruct (before z x); simpl; [rewrite IH|]; intuition congruence.
Qed.

Lemma In_sort_by (y : A) (l : list A) : In y (sort_by before l) <-> In y l.
Proof.
  induction l as [|x l IH]; simpl; [reflexivity|].
  rewrite In_insert_by, IH. intuition congruence.
Qed.

Hypothesis before_asym : forall a b, before a b = true -> before b a = false.
Hypothesis before_negtrans :
  forall a b c, before a b = false -> before b c = false -> before a c = false.

(** Nothing is strictly ahead of the head of the sorted list. *)
Lemma sort_by_head (l : list A) (h : A) (r : list A) :
  sort_by before l = h :: r -> forall y, In y l -> before y h = false.
Proof.
  revert h r. induction l as [|x l IH]; intros h r E y Hy; [destruct Hy|].
  assert (Hirr : forall a, before a a = false).
  { intro a. destruct (before a a) eqn:Ea; [|reflexivity].
    now rewrite (before_asym a a Ea) in Ea. }
  simpl in E. destruct (sort_by before l) as [|h' r'] eqn:Es.
  - simpl in E. injection E as <- <-. destruct Hy as [<- | Hy]; [apply Hirr|].
    apply (In_sort_by y l) in Hy. rewrite Es in Hy. destruct Hy.
  - simpl in E. destruct (before h' x) eqn:Eb; injection E as <- <-.
    + destruct Hy as [<- | Hy]; [now apply before_asym|].
      exact (IH h' r' eq_refl y Hy).
    + destruct Hy as [<- | Hy]; [apply Hirr|].
      apply (before_negtrans y h' x); [|exact Eb].
      exact (IH h' r' eq_refl y Hy).
Qed.

End SortFacts.

Lemma key_ltb_iff (x y : nat * nat * Q * Q) :
  key_ltb x y = true <->
  snd (fst x) < snd (fst y) \/
  (snd (fst x) == snd (fst y) /\ snd x < snd y).
Proof.
  destruct x as [[[i1 i2] t1] s1], y as [[[j1 j2] t2] s2]. simpl.
  destruct (Qeq_bool t1 t2) eqn:E.
  - apply Qeq_bool_iff in E. rewrite Qlt_bool_iff. split; [auto|].
    intros [Hlt | [_ Hlt]]; [lra | exact Hlt].
  - apply Qeq_bool_neq in E. rewrite Qlt_bool_iff. split; [auto|].
    intros [Hlt | [Heq _]]; [exact Hlt | contradiction].
Qed.

Lemma key_ltb_false_iff (x y : nat * nat * Q * Q) :
  key_ltb x y = false <->
  snd (fst y) < snd (fst x) \/
  (snd (fst y) == snd (fst x) /\ snd y <= snd x).
Proof.
  split.
  - intro E.
    assert (Hn : ~ (snd (fst x) < snd (fst y) \/
                    snd (fst x) == snd (fst y) /\ snd x < snd y)).
    { intro Hc. apply key_ltb_iff in Hc. congruence. }
    destruct (Qlt_le_dec (snd (fst y)) (snd (fst x))) as [Hlt | Hle]; [auto|].
    right. split.
    + apply Qle_antisym; [|exact Hle].
      apply Qnot_lt_le. intro Hc. apply Hn. now left.
    + apply Qnot_lt_le. intro Hc. apply Hn.
      destruct (Qlt_le_dec (snd (fst x)) (snd (fst y))) as [Hlt' | Hle'];
        [now left|].
      right. split; [apply Qle_antisym; assumption | exact Hc].
  - intro Hyx. destruct (key_ltb x y) eqn:E; [|reflexivity].
    apply key_ltb_iff in E. lra.
Qed.

(** The head of the sorted pairs has the largest key. *)
Lemma sort_pairs_head (l : list (nat * nat * Q * Q)) (h : nat * nat * Q * Q)
    (r : list (nat * nat * Q * Q)) :
  sort_pairs l = h :: r ->
  In h l /\ forall y, In y l -> key_ltb h y = false.
Proof.
  intro E. split.
  - apply (In_sort_by _ (fun y x => key_ltb x y)).
    unfold sort_pairs in E. rewrite E. now left.
  - apply (sort_by_head _ (fun y x => key_ltb x y)) with (r := r);
      [| |exact E].
    + intros a b Hab. apply key_ltb_iff in Hab. apply key_ltb_false_iff. lra.
    + intros a b c Hab Hbc.
      apply key_ltb_false_iff in Hab, Hbc. apply key_ltb_false_iff. lra.
Qed.

Section TwoNeighbour.

Context {G : Type} `{Geometry G}.

Lemma touches_some_part_iff (parts : list (nat * row G)) (c : row G) :
  existsb (fun p => touches (geometry c) (geometry (snd p))) parts = true <->
  touches_some_part parts c.
Proof.
  unfold touches_some_part. rewrite existsb_exists. reflexivity.
Qed.

Lemma nth_error_cons_sub {A : Type} (x : A) (l : list A) (s i : nat) :
  (s < i)%nat -> nth_error (x :: l) (i - s) = nth_error l (i - S s).
Proof.
  intro Hlt. replace (i - s)%nat with (S (i - S s)) by lia. reflexivity.
Qed.

(** The entries of [touching_candidates], for the pool rows from position
    [s] on. *)
Lemma In_touching_from (parts : list (nat * row G)) (l : list (row G))
    (s : nat) (e : nat * row G * list nat) :
  In e (flat_map
          (fun ic =>
             if existsb (fun p => touches (geometry (snd ic)) (geometry (snd p)))
                        parts
             then [(fst ic, snd ic, touching_parts (snd ic) parts)]
             else [])
          (combine (seq s (List.length l)) l)) <->
  exists i c,
    (s <= i)%nat /\ nth_error l (i - s) = Some c /\
    touches_some_part parts c /\ e = (i, c, touching_parts c parts).
Proof.
  rewrite in_flat_map. split.
  - intros [[i c] [Hin He]]. apply In_combine_seq in Hin as [Hle Hn].
    simpl in He.
    destruct (existsb _ parts) eqn:E; [|destruct He].
    destruct He as [<- | []]. apply touches_some_part_iff in E.
    exists i, c. auto.
  - intros (i & c & Hle & Hn & Ht & ->). exists (i, c). split.
    + apply In_combine_seq. auto.
    + simpl. apply touches_some_part_iff in Ht. rewrite Ht. now left.
Qed.

(** The pairs the double loop visits. *)
Lemma In_pairs_touching_from (parts : list (nat * row G)) (l : list (row G))
    (s : nat) (a b : nat * row G * list nat) :
  In (a, b)
     (pairs_of
        (flat_map
           (fun ic =>
              if existsb (fun p => touches (geometry (snd ic)) (geometry (snd p)))
                         parts
              then [(fst ic, snd ic, touching_parts (snd ic) parts)]
              else [])
           (combine (seq s (List.length l)) l))) <->
  exists i j c d,
    (s <= i)%nat /\ (i < j)%nat /\
    nth_error l (i - s) = Some c /\ nth_error l (j - s) = Some d /\
    touches_some_part parts c /\ touches_some_part parts d /\
    a = (i, c, touching_parts c parts) /\ b = (j, d, touching_parts d parts).
Proof.
  revert s. induction l as [|c0 l IH]; intro s.
  - simpl. split; [tauto|]. intros (i & j & c & d & _ & _ & Hn & _).
    destruct (i - s)%nat; discriminate.
  - cbn [List.length seq combine flat_map fst snd].
    destruct (existsb _ parts) eqn:E.
    + cbn [app pairs_of]. rewrite in_app_iff, in_map_iff, IH. split.
      * intros [(y & Heq & Hin) | (i & j & c & d & Hle & Hlt & Hc & Hd & Htc & Htd & -> & ->)].
        -- injection Heq as <- <-.
           apply In_touching_from in Hin as (j & d & Hle & Hn & Ht & ->).
           exists s, j, c0, d. apply touches_some_part_iff in E.
           rewrite Nat.sub_diag, nth_error_cons_sub by lia.
           repeat split; auto; lia.
        -- exists i, j, c, d. rewrite !nth_error_cons_sub by lia.
           repeat split; auto; lia.
      * intros (i & j & c & d & Hle & Hlt & Hc & Hd & Htc & Htd & -> & ->).
        rewrite nth_error_cons_sub in Hd by lia.
        destruct (Nat.eq_dec i s) as [-> | Hne].
        -- left. rewrite Nat.sub_diag in Hc. simpl in Hc. injection Hc as <-.
           exists (j, d, touching_parts d parts). split; [reflexivity|].
           apply In_touching_from. exists j, d. repeat split; auto; lia.
        -- right. rewrite nth_error_cons_sub in Hc by lia.
           exists i, j, c, d. repeat split; auto; lia.
    + cbn [app]. rewrite IH. split.
      * intros (i & j & c & d & Hle & Hlt & Hc & Hd & Htc & Htd & -> & ->).
        exists i, j, c, d. rewrite !nth_error_cons_sub by lia.
        repeat split; auto; lia.
      * intros (i & j & c & d & Hle & Hlt & Hc & Hd & Htc & Htd & -> & ->).
        rewrite nth_error_cons_sub in Hd by lia.
        destruct (Nat.eq_dec i s) as [-> | Hne].
        -- rewrite Nat.sub_diag in Hc. simpl in Hc. injection Hc as <-.
           apply touches_some_part_iff in Htc. congruence.
        -- rewrite nth_error_cons_sub in Hc by lia.
           exists i, j, c, d. repeat split; auto; lia.
Qed.

(** The entries of [valid_pairs]. *)
Lemma In_valid_pairs (parts : list (nat * row G)) (non_dup : list (row G))
    (m : Q) (i1 i2 : nat) (t sh : Q) :
  In (i1, i2, t, sh) (valid_pairs parts non_dup m) <->
  exists c1 c2,
    (i1 < i2)%nat /\
    nth_error non_dup i1 = Some c1 /\ nth_error non_dup i2 = Some c2 /\
    touches_some_part parts c1 /\ touches_some_part parts c2 /\
    touches (geometry c1) (geometry c2) = true /\
    m <= shared_length (geometry c1) (geometry c2) /\
    set_eqb (touching_parts c1 parts ++ touching_parts c2 parts)
            (map fst parts) = true /\
    t = add_shared_with_parts c2 parts (touching_parts c2 parts)
          (add_shared_with_parts c1 parts (touching_parts c1 parts) 0) /\
    sh = shared_length (geometry c1) (geometry c2).
Proof.
  unfold valid_pairs, touching_candidates, enumerate. rewrite in_flat_map.
  split.
  - intros [[a b] [Hin Hv]].
    apply In_pairs_touching_from in Hin
      as (i & j & c & d & _ & Hlt & Hc & Hd & Htc & Htd & -> & ->).
    rewrite Nat.sub_0_r in Hc, Hd. cbn [fst snd valid_pair] in Hv.
    destruct (touches (geometry c) (geometry d)) eqn:Et; [|destruct Hv].
    cbn [negb] in Hv.
    destruct (Qlt_bool (shared_length (geometry c) (geometry d)) m) eqn:El;
      [destruct Hv|].
    destruct (set_eqb _ _) eqn:Es; [|destruct Hv].
    cbn [negb] in Hv. destruct Hv as [Hv | []].
    injection Hv as <- <- <- <-. apply Qlt_bool_false_iff in El.
    exists c, d. repeat split; auto.
  - intros (c1 & c2 & Hlt & Hc & Hd & Htc & Htd & Et & El & Es & -> & ->).
    exists ((i1, c1, touching_parts c1 parts), (i2, c2, touching_parts c2 parts)).
    split.
    + apply In_pairs_touching_from. exists i1, i2, c1, c2.
      rewrite !Nat.sub_0_r. repeat split; auto; lia.
    + cbn [fst snd valid_pair]. rewrite Et. cbn [negb].
      apply Qlt_bool_false_iff in El. rewrite El, Es. cbn [negb]. now left.
Qed.

Lemma mem_nat_iff (i : nat) (l : list nat) : mem_nat i l = true <-> In i l.
Proof.
  unfold mem_nat. rewrite existsb_exists. split.
  - intros [j [Hin Heq]]. apply Nat.eqb_eq in Heq. now subst.
  - intro Hin. exists i. split; [exact Hin | apply Nat.eqb_refl].
Qed.

Lemma In_touching_parts (parts : list (nat * row G)) (c : row G) (i : nat) :
  In i (touching_parts c parts) <->
  exists p, In p parts /\ fst p = i /\
            touches (geometry c) (geometry (snd p)) = true.
Proof.
  unfold touching_parts. rewrite in_map_iff. split.
  - intros [p [Hi Hin]]. apply filter_In in Hin as [Hin Ht]. eauto.
  - intros [p [Hin [Hi Ht]]]. exists p. split; [exact Hi|].
    apply filter_In. auto.
Qed.

Lemma label_unique (parts : list (nat * row G)) (p q : nat * row G) :
  NoDup (map fst parts) -> In p parts -> In q parts -> fst p = fst q -> p = q.
Proof.
  induction parts as [|x parts IH]; intros Hnd Hp Hq Heq; [destruct Hp|].
  simpl in Hnd. apply NoDup_cons_iff in Hnd as [Hx Hnd].
  destruct Hp as [<- | Hp], Hq as [<- | Hq].
  - reflexivity.
  - exfalso. apply Hx. rewrite Heq. now apply in_map.
  - exfalso. apply Hx. rewrite <- Heq. now apply in_map.
  - now apply IH.
Qed.

(** The test [union_touching != all_parts_idx] passes exactly when the two
    candidates together touch every part. *)
Lemma cover_iff (parts : list (nat * row G)) (c1 c2 : row G) :
  NoDup (map fst parts) ->
  set_eqb (touching_parts c1 parts ++ touching_parts c2 parts) (map fst parts)
    = true <->
  forall p, In p parts ->
    touches (geometry c1) (geometry (snd p)) = true \/
    touches (geometry c2) (geometry (snd p)) = true.
Proof.
  intro Hnd. unfold set_eqb. rewrite andb_true_iff, !forallb_forall. split.
  - intros [_ Hall] p Hp.
    specialize (Hall (fst p) (in_map fst parts p Hp)).
    apply mem_nat_iff, in_app_or in Hall.
    destruct Hall as [Hin | Hin];
      apply In_touching_parts in Hin as (q & Hq & Heq & Ht);
      rewrite (label_unique parts q p Hnd Hq Hp Heq) in Ht; auto.
  - intro Hcov. split.
    + intros i Hi. apply mem_nat_iff.
      apply in_app_or in Hi.
      destruct Hi as [Hi | Hi];
        apply In_touching_parts in Hi as (q & Hq & <- & _);
        now apply in_map.
    + intros i Hi. apply mem_nat_iff.
      apply in_map_iff in Hi as (p & <- & Hp). apply in_or_app.
      destruct (Hcov p Hp) as [Ht | Ht]; [left | right];
        apply In_touching_parts; eauto.
Qed.

Lemma parts_loc_In (parts : list (nat * row G)) (p : nat * row G) :
  NoDup (map fst parts) -> In p parts -> parts_loc parts (fst p) = Some (snd p).
Proof.
  intros Hnd Hp. unfold parts_loc.
  destruct (find (fun q => (fst q =? fst p)%nat) parts) as [q|] eqn:E.
  - apply find_some in E as [Hq Heq]. apply Nat.eqb_eq in Heq.
    now rewrite (label_unique parts q p Hnd Hq Hp Heq).
  - apply (find_none _ _ E) in Hp. now rewrite Nat.eqb_refl in Hp.
Qed.

Lemma add_shared_with_parts_sum (parts sub : list (nat * row G))
    (cand : row G) (acc : Q) :
  NoDup (map fst parts) -> incl sub parts ->
  add_shared_with_parts cand parts (map fst sub) acc ==
  acc + Qsum (map (fun p => shared_length (geometry cand) (geometry (snd p)))
                  sub).
Proof.
  intros Hnd. unfold add_shared_with_parts. revert acc.
  induction sub as [|p sub IH]; intros acc Hincl; simpl.
  - lra.
  - rewrite (parts_loc_In parts p Hnd) by (apply Hincl; now left).
    rewrite IH by (intros q Hq; apply Hincl; now right). lra.
Qed.

(** [total_shared] of a valid pair is the sum of the two candidates' shared
    lengths with the parts they touch. *)
Lemma total_shared_score (parts : list (nat * row G)) (c1 c2 : row G) :
  NoDup (map fst parts) ->
  add_shared_with_parts c2 parts (touching_parts c2 parts)
    (add_shared_with_parts c1 parts (touching_parts c1 parts) 0) ==
  shared_with_touched parts c1 + shared_with_touched parts c2.
Proof.
  intro Hnd. unfold touching_parts, shared_with_touched.
  rewrite !add_shared_with_parts_sum; auto using incl_filter. lra.
Qed.

(** What a returned pair satisfies. *)
Lemma two_target_search_sound (parts : list (nat * row G))
    (non_dup : list (row G)) (m : Q) (i1 i2 : nat) :
  NoDup (map fst parts) ->
  two_target_search parts non_dup m = Some (i1, i2) ->
  pair_valid parts non_dup m i1 i2 /\
  forall j1 j2, pair_valid parts non_dup m j1 j2 ->
    pair_score parts non_dup j1 j2 < pair_score parts non_dup i1 i2 \/
    (pair_score parts non_dup j1 j2 == pair_score parts non_dup i1 i2 /\
     pair_shared non_dup j1 j2 <= pair_shared non_dup i1 i2).
Proof.
  intros Hnd. unfold two_target_search.
  destruct (_ <? 2)%nat; [discriminate|].
  destruct (sort_pairs (valid_pairs parts non_dup m)) as [|[[[b1 b2] t] sh] r]
    eqn:Es; [discriminate|].
  intro E. injection E as -> ->.
  apply sort_pairs_head in Es as [Hin Hmax].
  apply In_valid_pairs in Hin
    as (c1 & c2 & Hlt & Hc1 & Hc2 & Ht1 & Ht2 & Et & El & Ecov & -> & ->).
  split.
  - exists c1, c2. pose proof (proj1 (cover_iff parts c1 c2 Hnd) Ecov) as Hcov. repeat split; auto.
  - intros j1 j2 (d1 & d2 & Hlt' & Hd1 & Hd2 & Hs1 & Hs2 & Et' & El' & Hcov').
    specialize (Hmax
      (j1, j2,
       add_shared_with_parts d2 parts (touching_parts d2 parts)
         (add_shared_with_parts d1 parts (touching_parts d1 parts) 0),
       shared_length (geometry d1) (geometry d2))).
    assert (Hin' : In (j1, j2,
       add_shared_with_parts d2 parts (touching_parts d2 parts)
         (add_shared_with_parts d1 parts (touching_parts d1 parts) 0),
       shared_length (geometry d1) (geometry d2))
       (valid_pairs parts non_dup m)).
    { apply In_valid_pairs. exists d1, d2. pose proof (proj2 (cover_iff parts d1 d2 Hnd) Hcov') as Ecov'.
      repeat split; auto. }
    apply Hmax, key_ltb_false_iff in Hin'. cbn [fst snd] in Hin'.
    rewrite !total_shared_score in Hin' by exact Hnd.
    unfold pair_score, pair_shared. rewrite Hc1, Hc2, Hd1, Hd2. exact Hin'.
Qed.



End TwoNeighbour.

Section TwoNeighbourMerge.

Context {G : Type} `{Geometry G}.

Variable num_cols : list string.
Variable count_cols : list string.
Variable data_ids : list string.



End TwoNeighbourMerge.

(** ** The attribute merge *)

Lemma mem_str_iff (c : string) (l : list string) :
  mem_str c l = true <-> In c l.
Proof.
  unfold mem_str. rewrite existsb_exists. split.
  - intros [x [Hin Heq]]. apply String.eqb_eq in Heq. now subst.
  - intro Hin. exists c. split; [exact Hin | apply String.eqb_refl].
Qed.

Lemma mem_str_false_iff (c : string) (l : list string) :
  mem_str c l = false <-> ~ In c l.
Proof.
  rewrite <- mem_str_iff. destruct (mem_str c l); intuition congruence.
Qed.

Lemma In_avg_cols (num_cols count_cols : list string) (c : string) :
  In c (avg_cols num_cols count_cols) <-> In c num_cols /\ ~ In c count_cols.
Proof.
  unfold avg_cols. rewrite filter_In, negb_true_iff, mem_str_false_iff.
  reflexivity.
Qed.

(** [_generate_new_id] returns whenever the last three characters of every
    identifier in use read as an integer. *)
Lemma generate_new_id_returns (data_ids : list string) (orig_id_key : string)
    (generated_ids : list string) :
  Forall (fun x => PyStr.int (PyStr.last 3 x) <> None)
         (data_ids ++ generated_ids) ->
  exists new_id,
    _generate_new_id data_ids orig_id_key generated_ids
    = Some (new_id, set_add new_id generated_ids).
Proof.
  intro Hall. unfold _generate_new_id.
  assert (Hs : exists l,
             suffixes_of (PyStr.drop_last 2 orig_id_key)
                         (data_ids ++ generated_ids) = Some l).
  { induction Hall as [|x used Hx _ [l IH]]; simpl; [eauto|].
    destruct (PyStr.startswith _ x); [|eauto].
    destruct (PyStr.int (PyStr.last 3 x)); [|congruence].
    rewrite IH. eauto. }
  destruct Hs as [l ->]. eauto.
Qed.

Section Merge.

Context {G : Type} `{Geometry G}.

Variable num_cols : list string.
Variable count_cols : list string.
Variable data_ids : list string.

(** The numeric columns of a merged row. *)
Lemma merge_returns (l : nat) (base_dup : row G) (rest : list (nat * row G))
    (target0 : row G) (others : list (row G)) (orig_id_key pop_col : string)
    (st st' : list string) (new_id : string) :
  _generate_new_id data_ids orig_id_key st = Some (new_id, st') ->
  exists r,
    _merge_parts_and_targets num_cols count_cols data_ids
      ((l, base_dup) :: rest) (target0 :: others) orig_id_key pop_col st
    = Some (r, st') /\
    poly_id r = new_id /\
    meta r = meta target0 /\
    comb_adj r = Some (Z.of_nat (List.length (target0 :: others))) /\
    num r = set_cols (avg_cols num_cols count_cols)
              (weighted_avg base_dup (target0 :: others) pop_col)
              (set_cols count_cols (counts_sum base_dup (target0 :: others))
                 (num target0)).
Proof.
  intro Hgen. unfold _merge_parts_and_targets, bind. rewrite Hgen.
  eexists. split; [reflexivity|]. simpl. auto.
Qed.

(** C10. In every merge of a part-group with one or two absorbed
    candidates, the fields that are not recomputed (commune identifier and
    name, zone classification and any other metadata, and the numeric
    columns outside [num_cols] and [count_cols]) are those of the first
    absorbed candidate. *)
Theorem merge_keeps_first_target_fields (l : nat) (base_dup : row G)
    (rest : list (nat * row G)) (target0 : row G) (others : list (row G))
    (orig_id_key pop_col : string) (st st' : list string) (new_id : string) :
  _generate_new_id data_ids orig_id_key st = Some (new_id, st') ->
  exists r,
    _merge_parts_and_targets num_cols count_cols data_ids
      ((l, base_dup) :: rest) (target0 :: others) orig_id_key pop_col st
    = Some (r, st') /\
    meta r = meta target0 /\
    forall c, ~ In c num_cols -> ~ In c count_cols -> num r c = num target0 c.
Proof.
  intro Hgen.
  destruct (merge_returns l base_dup rest target0 others orig_id_key pop_col
              st st' new_id Hgen) as (r & Hr & _ & Hmeta & _ & Hnum).
  exists r. split; [exact Hr|]. split; [exact Hmeta|].
  intros c Hn Hc. rewrite Hnum. unfold set_cols.
  assert (Ha : mem_str c (avg_cols num_cols count_cols) = false).
  { apply mem_str_false_iff. rewrite In_avg_cols. tauto. }
  apply mem_str_false_iff in Hc. now rewrite Ha, Hc.
Qed.

Lemma counts_sum_eq (base_dup : row G) (targets : list (row G)) (c : string) :
  counts_sum base_dup targets c ==
  num base_dup c + Qsum (map (fun t => num t c) targets).
Proof.
  unfold counts_sum. apply fold_left_Qplus.
Qed.

Lemma sum_over_eq (targets : list (row G)) (f : row G -> Q) :
  sum_over targets f == Qsum (map f targets).
Proof.
  unfold sum_over. rewrite fold_left_Qplus. lra.
Qed.

Lemma weighted_avg_cases (base_dup : row G) (targets : list (row G))
    (pop_col c : string) :
  let pop_dup := num base_dup pop_col in
  let pop_targets := Qsum (map (fun t => num t pop_col) targets) in
  (0 < pop_dup + pop_targets -> 0 < pop_targets ->
   weighted_avg base_dup targets pop_col c ==
   (num base_dup c * pop_dup
    + Qsum (map (fun t => num t c * num t pop_col) targets))
   / (pop_dup + pop_targets)) /\
  (pop_targets <= 0 -> weighted_avg base_dup targets pop_col c == num base_dup c) /\
  (pop_dup + pop_targets <= 0 ->
   weighted_avg base_dup targets pop_col c = num base_dup c).
Proof.
  intros pop_dup pop_targets. unfold weighted_avg. fold pop_dup.
  pose proof (sum_over_eq targets (fun t => num t pop_col)) as Hpt.
  pose proof (sum_over_eq targets (fun t => num t c * num t pop_col)) as Hs.
  fold pop_targets in Hpt.
  set (PT := sum_over targets (fun t => num t pop_col)) in *.
  set (S := sum_over targets (fun t => num t c * num t pop_col)) in *.
  set (S' := Qsum (map (fun t => num t c * num t pop_col) targets)) in *.
  destruct (Qlt_bool 0 (pop_dup + PT)) eqn:Etot;
    [apply Qlt_bool_iff in Etot | apply Qlt_bool_false_iff in Etot];
    (destruct (Qlt_bool 0 PT) eqn:Ept;
       [apply Qlt_bool_iff in Ept | apply Qlt_bool_false_iff in Ept]).
  - split; [|split]; intros; try lra.
    rewrite Hs, Hpt. field. split; lra.
  - split; [|split]; intros; try lra.
    rewrite Hpt. field. lra.
  - split; [|split]; intros; try lra; reflexivity.
  - split; [|split]; intros; try lra; reflexivity.
Qed.

(** C1 (amended). The count columns of a resolved group are those of its
    first part, to which a merge adds the absorbed candidates: the row of a
    directly contiguous group carries the numeric columns of the first part
    unchanged, and every count column of a merged row equals the value on the
    first part plus the sum over all absorbed candidates. *)
Theorem count_columns_of_resolved_group (l : nat) (base_dup : row G)
    (rest : list (nat * row G)) :
  (forall (non_dup : list (row G)) (pop_col orig_id_key : string) (m : Q)
          (acc : loop_state) (st : list string),
      _are_parts_contiguous ((l, base_dup) :: rest) m = true ->
      exists r,
        resolve_group num_cols count_cols data_ids non_dup pop_col m acc
          (orig_id_key, (l, base_dup) :: rest) st
        = Some ({| resolved_rows := resolved_rows acc ++ [r];
                   consumed_dup_idx :=
                     consumed_dup_idx acc ++ map fst ((l, base_dup) :: rest);
                   consumed_nondup_idx := consumed_nondup_idx acc |}, st) /\
        forall c, num r c = num base_dup c) /\
  (forall (target0 : row G) (others : list (row G))
          (orig_id_key pop_col : string) (st st' : list string)
          (new_id : string),
      _generate_new_id data_ids orig_id_key st = Some (new_id, st') ->
      exists r,
        _merge_parts_and_targets num_cols count_cols data_ids
          ((l, base_dup) :: rest) (target0 :: others) orig_id_key pop_col st
        = Some (r, st') /\
        forall c, In c count_cols ->
          num r c ==
          num base_dup c + Qsum (map (fun t => num t c) (target0 :: others))).
Proof.
  split.
  - intros non_dup pop_col orig_id_key m acc st Hc.
    exists (direct_union_row orig_id_key base_dup ((l, base_dup) :: rest)).
    split; [|reflexivity].
    unfold resolve_group. rewrite Hc. reflexivity.
  - intros target0 others orig_id_key pop_col st st' new_id Hgen.
    destruct (merge_returns l base_dup rest target0 others orig_id_key pop_col
                st st' new_id Hgen) as (r & Hr & _ & _ & _ & Hnum).
    exists r. split; [exact Hr|].
    intros c Hc. rewrite Hnum. unfold set_cols.
    assert (Ha : mem_str c (avg_cols num_cols count_cols) = false).
    { apply mem_str_false_iff. rewrite In_avg_cols. tauto. }
    apply mem_str_iff in Hc. rewrite Ha, Hc. apply counts_sum_eq.
Qed.

(** C4 (amended). In every merge of a part-group with one or two absorbed
    candidates, each averaged column of the output is the population-weighted
    average in which the base weight is the population recorded on the
    group's first part and the weight of each absorbed candidate is its own
    population; when the absorbed candidates' total population is zero the
    output is the first part's value, and when the combined population is
    zero the first part's value passes through.  With base population 50
    and value 12, and one absorbed candidate of population 50 and value 20,
    the merged value is 16. *)
Theorem merge_weighted_average (l : nat) (base_dup : row G)
    (rest : list (nat * row G)) (target0 : row G) (others : list (row G))
    (orig_id_key pop_col : string) (st st' : list string) (new_id : string) :
  _generate_new_id data_ids orig_id_key st = Some (new_id, st') ->
  exists r,
    _merge_parts_and_targets num_cols count_cols data_ids
      ((l, base_dup) :: rest) (target0 :: others) orig_id_key pop_col st
    = Some (r, st') /\
    forall c, In c num_cols -> ~ In c count_cols ->
      let targets := target0 :: others in
      let pop_dup := num base_dup pop_col in
      let pop_targets := Qsum (map (fun t => num t pop_col) targets) in
      (0 < pop_dup + pop_targets -> 0 < pop_targets ->
       num r c ==
       (num base_dup c * pop_dup
        + Qsum (map (fun t => num t c * num t pop_col) targets))
       / (pop_dup + pop_targets)) /\
      (pop_targets == 0 -> num r c == num base_dup c) /\
      (pop_dup + pop_targets == 0 -> num r c == num base_dup c) /\
      (others = [] -> pop_dup == 50 -> num base_dup c == 12 ->
       num target0 pop_col == 50 -> num target0 c == 20 -> num r c == 16).
Proof.
  intro Hgen.
  destruct (merge_returns l base_dup rest target0 others orig_id_key pop_col
              st st' new_id Hgen) as (r & Hr & _ & _ & _ & Hnum).
  exists r. split; [exact Hr|].
  intros c Hn Hc targets pop_dup pop_targets.
  assert (Hrc : num r c = weighted_avg base_dup targets pop_col c).
  { rewrite Hnum. unfold set_cols.
    assert (Ha : mem_str c (avg_cols num_cols count_cols) = true).
    { apply mem_str_iff, In_avg_cols. tauto. }
    now rewrite Ha. }
  rewrite Hrc.
  destruct (weighted_avg_cases base_dup targets pop_col c)
    as (Havg & Hzero & Hpass).
  fold pop_dup pop_targets in Havg, Hzero, Hpass.
  split; [exact Havg|]. split; [|split].
  - intro Hz. apply Hzero. lra.
  - intro Hz. rewrite Hpass by lra. reflexivity.
  - intros -> Hpd Hbc Htp Htc.
    assert (Hpt : pop_targets == 50).
    { unfold pop_targets, targets. simpl. lra. }
    rewrite Havg by lra.
    unfold targets. simpl. rewrite Hpt, Hpd, Hbc, Htp, Htc. reflexivity.
Qed.

End Merge.

(** ** The resolution loop and the candidate pool *)

Lemma In_drop_index {G : Type} (df : list (row G)) (idx : list nat) (r : row G) :
  In r (drop_index df idx) <->
  exists i, nth_error df i = Some r /\ ~ In i idx.
Proof.
  unfold drop_index. rewrite in_map_iff. split.
  - intros [[i r'] [Heq Hin]]. simpl in Heq. subst r'.
    apply filter_In in Hin as [Hin Hm]. apply In_enumerate in Hin.
    exists i. split; [exact Hin|]. simpl in Hm.
    apply negb_true_iff in Hm. intro Hc. apply mem_nat_iff in Hc. congruence.
  - intros [i [Hn Hi]]. exists (i, r). split; [reflexivity|].
    apply filter_In. split; [now apply In_enumerate|]. simpl.
    apply negb_true_iff. destruct (mem_nat i idx) eqn:E; [|reflexivity].
    apply mem_nat_iff in E. contradiction.
Qed.

Section Resolve.

Context {G : Type} `{Geometry G}.

Variable num_cols : list string.
Variable count_cols : list string.
Variable data_ids : list string.

(** One iteration appends to [consumed_nondup_idx] what the group absorbs
    from the whole pool, whatever earlier groups consumed. *)
Lemma resolve_group_consumed (non_dup : list (row G)) (pop_col : string)
    (m : Q) (acc acc' : loop_state) (grp : string * list (nat * row G))
    (st st' : list string) :
  resolve_group num_cols count_cols data_ids non_dup pop_col m acc grp st
  = Some (acc', st') ->
  consumed_nondup_idx acc'
  = consumed_nondup_idx acc ++ absorbed_by (snd grp) non_dup m /\
  exists rows, resolved_rows acc' = resolved_rows acc ++ rows.
Proof.
  destruct grp as [key parts]. unfold resolve_group, absorbed_by. simpl.
  destruct (_are_parts_contiguous parts m).
  - destruct parts as [|[l first] rest]; [discriminate|].
    intro E. injection E as <- <-. simpl. rewrite app_nil_r. eauto.
  - destruct (_find_best_adjacent_polygon parts non_dup m) as [i|].
    + unfold bind, lift_option.
      destruct (nth_error non_dup i) as [t|]; [|discriminate].
      unfold ret at 1.
      destruct (_merge_parts_and_targets _ _ _ _ _ _ _ _) as [[r st1]|];
        [|discriminate].
      intro E. injection E as <- <-. simpl. eauto.
    + unfold bind, _merge_remaining_with_two_targets.
      destruct (two_target_search parts non_dup m) as [[i1 i2]|].
      * unfold bind, lift_option.
        destruct (nth_error non_dup i1) as [t1|]; [|discriminate].
        unfold ret at 1.
        destruct (nth_error non_dup i2) as [t2|]; [|discriminate].
        unfold ret at 1.
        destruct (_merge_parts_and_targets _ _ _ _ _ _ _ _) as [[r st1]|];
          [|discriminate].
        unfold ret. intro E. injection E as <- <-. simpl. eauto.
      * unfold ret. intro E. injection E as <- <-.
        split; [now rewrite app_nil_r | exists []; now rewrite app_nil_r].
Qed.

(** A group that is not directly contiguous and absorbs candidates is
    resolved by [_merge_parts_and_targets] on the pool rows it absorbs. *)
Lemma resolve_group_merge_path (non_dup : list (row G)) (pop_col : string)
    (m : Q) (acc acc' : loop_state) (key : string)
    (parts : list (nat * row G)) (st st' : list string) :
  _are_parts_contiguous parts m = false ->
  absorbed_by parts non_dup m <> [] ->
  resolve_group num_cols count_cols data_ids non_dup pop_col m acc
    (key, parts) st = Some (acc', st') ->
  exists targets r,
    Forall2 (fun i t => nth_error non_dup i = Some t)
            (absorbed_by parts non_dup m) targets /\
    _merge_parts_and_targets num_cols count_cols data_ids parts targets key
      pop_col st = Some (r, st') /\
    resolved_rows acc' = resolved_rows acc ++ [r] /\
    consumed_dup_idx acc' = consumed_dup_idx acc ++ map fst parts.
Proof.
  intros Hc. unfold resolve_group, absorbed_by. rewrite Hc.
  destruct (_find_best_adjacent_polygon parts non_dup m) as [i|].
  - intros _. unfold bind, lift_option.
    destruct (nth_error non_dup i) as [t|] eqn:Ht; [|discriminate].
    unfold ret at 1.
    destruct (_merge_parts_and_targets _ _ _ _ _ _ _ _) as [[r st1]|] eqn:Em;
      [|discriminate].
    intro E. injection E as <- <-. exists [t], r. simpl.
    split; [repeat constructor; exact Ht|]. auto.
  - unfold bind, _merge_remaining_with_two_targets.
    destruct (two_target_search parts non_dup m) as [[i1 i2]|];
      [|intro Hne; now destruct Hne].
    intros _. unfold bind, lift_option.
    destruct (nth_error non_dup i1) as [t1|] eqn:Ht1; [|discriminate].
    unfold ret at 1.
    destruct (nth_error non_dup i2) as [t2|] eqn:Ht2; [|discriminate].
    unfold ret at 1.
    destruct (_merge_parts_and_targets _ _ _ _ _ _ _ _) as [[r st1]|] eqn:Em;
      [|discriminate].
    unfold ret. intro E. injection E as <- <-. exists [t1; t2], r. simpl.
    split; [repeat constructor; assumption|]. auto.
Qed.

Lemma resolve_loop_consumed (non_dup : list (row G)) (pop_col : string)
    (m : Q) (groups : list (string * list (nat * row G)))
    (acc acc' : loop_state) (st st' : list string) :
  resolve_loop num_cols count_cols data_ids non_dup pop_col m groups acc st
  = Some (acc', st') ->
  consumed_nondup_idx acc'
  = consumed_nondup_idx acc
    ++ flat_map (fun grp => absorbed_by (snd grp) non_dup m) groups.
Proof.
  revert acc st. induction groups as [|grp groups IH]; intros acc st; simpl.
  - unfold ret. intro E. injection E as <- <-. now rewrite app_nil_r.
  - unfold bind.
    destruct (resolve_group _ _ _ _ _ _ _ _ _) as [[acc1 st1]|] eqn:E1;
      [|discriminate].
    intro E. apply IH in E. apply resolve_group_consumed in E1 as [E1 _].
    rewrite E, E1, app_assoc. reflexivity.
Qed.

(** The drop after the loop.  Every part-group is searched against the
    whole candidate pool as it was passed in: what a group absorbs does not
    depend on what earlier groups consumed.  The consumed candidates are
    collected and removed only after the last group: the pass-through
    records of the output are exactly the pool records that no group
    consumed. *)
Theorem consumed_candidates_removed_after_loop (dup non_dup : list (row G))
    (pop_col : string) (min_shared_len : Q) (st st' : list string)
    (resolved_gdf remaining_dup : list (row G)) :
  _resolve_multipart_by_contiguity num_cols count_cols data_ids dup non_dup
    pop_col min_shared_len st
  = Some ((resolved_gdf, remaining_dup), st') ->
  let consumed :=
    flat_map (fun grp => absorbed_by (snd grp) non_dup min_shared_len)
             (groupby dup) in
  exists acc,
    resolve_loop num_cols count_cols data_ids non_dup pop_col min_shared_len
      (groupby dup) (mkLoop [] [] []) st = Some (acc, st') /\
    consumed_nondup_idx acc = consumed /\
    resolved_gdf
    = map finalize_row (drop_index non_dup consumed)
      ++ map finalize_row (resolved_rows acc) /\
    forall r, In r (drop_index non_dup consumed) <->
              exists i, nth_error non_dup i = Some r /\ ~ In i consumed.
Proof.
  intros Hres consumed.
  unfold _resolve_multipart_by_contiguity, bind in Hres.
  destruct (resolve_loop _ _ _ _ _ _ _ _ _) as [[acc st1]|] eqn:E;
    [|discriminate].
  unfold ret in Hres. injection Hres as <- <- <-.
  exists acc. split; [reflexivity|].
  apply resolve_loop_consumed in E. simpl in E. fold consumed in E.
  split; [exact E|]. split.
  - rewrite E, map_app. reflexivity.
  - intro r. apply In_drop_index.
Qed.

(** Every identifier of the resolved frame has exactly 15 characters. *)
Lemma finalize_row_id_length (r : row G) :
  String.length (poly_id (finalize_row r)) = 15%nat.
Proof.
  simpl. unfold PyStr.ljust, PyStr.take.
  generalize (poly_id r). intro s.
  assert (Happ : forall a b, String.length (a ++ b)
                             = (String.length a + String.length b)%nat).
  { induction a as [|ch a IH]; intro b; simpl; [reflexivity|].
    now rewrite IH. }
  assert (Hrep : forall n ch, String.length (PyStr.replicate n ch) = n).
  { induction n as [|n IH]; intro ch; simpl; [reflexivity|]. now rewrite IH. }
  assert (Hsub : forall n t, (String.length (substring 0 n t) <= n)%nat).
  { induction n as [|n IH]; intro t; destruct t as [|ch t]; simpl; try lia.
    specialize (IH t). lia. }
  rewrite Happ, Hrep. specialize (Hsub 15%nat s). lia.
Qed.

End Resolve.

(** ** The plain relabel *)

Lemma string_length_append (a b : string) :
  String.length (a ++ b) = (String.length a + String.length b)%nat.
Proof.
  induction a as [|ch a IH]; simpl; [reflexivity | now rewrite IH].
Qed.

Lemma replicate_length (n : nat) (ch : ascii) :
  String.length (PyStr.replicate n ch) = n.
Proof.
  induction n as [|n IH]; simpl; [reflexivity | now rewrite IH].
Qed.

(** [ljust] only pads: the result has the width asked for, or the length of
    the string when that is larger. *)
Lemma ljust_length (width : nat) (ch : ascii) (s : string) :
  String.length (PyStr.ljust width ch s) = Nat.max width (String.length s).
Proof.
  unfold PyStr.ljust. rewrite string_length_append, replicate_length. lia.
Qed.

Lemma pad_row_id_length {G : Type} (id_length : nat) (r : row G) :
  String.length (poly_id (pad_row id_length r))
  = Nat.max id_length (String.length (poly_id r)).
Proof.
  apply ljust_length.
Qed.

(** ** The groups of the loop *)

Lemma map_fst_enumerate {A : Type} (l : list A) :
  map fst (enumerate l) = seq 0 (List.length l).
Proof.
  unfold enumerate. generalize 0%nat.
  induction l as [|x l IH]; intro s; simpl; [reflexivity | now rewrite IH].
Qed.

Lemma NoDup_map_fst_filter {A : Type} (f : nat * A -> bool)
    (l : list (nat * A)) :
  NoDup (map fst l) -> NoDup (map fst (filter f l)).
Proof.
  induction l as [|x l IH]; simpl; intro Hnd; [constructor|].
  apply NoDup_cons_iff in Hnd as [Hx Hnd].
  destruct (f x); simpl; [|now apply IH].
  constructor; [|now apply IH].
  intro Hin. apply Hx. apply in_map_iff in Hin as (y & Hy & Hin).
  apply filter_In in Hin as [Hin _]. rewrite <- Hy. now apply in_map.
Qed.

(** Every group the loop visits is non-empty, its rows are rows of the
    frame with the group's key, and their index labels are pairwise
    distinct. *)
Lemma groupby_group {G : Type} (dup : list (row G)) (key : string)
    (parts : list (nat * row G)) :
  In (key, parts) (groupby dup) ->
  parts <> [] /\
  NoDup (map fst parts) /\
  forall p, In p parts ->
    nth_error dup (fst p) = Some (snd p) /\ orig_id (snd p) = key.
Proof.
  unfold groupby. intro Hin.
  apply in_map_iff in Hin as (k & Heq & Hk). injection Heq as -> <-.
  apply In_sort_by, nodup_In, in_map_iff in Hk as (r & Hr & Hin).
  split; [|split].
  - apply In_nth_error in Hin as [i Hi].
    assert (Hf : In (i, r)
                   (filter (fun p => String.eqb (orig_id (snd p)) key)
                           (enumerate dup))).
    { apply filter_In. split; [now apply In_enumerate|].
      simpl. rewrite Hr. apply String.eqb_refl. }
    intro Hnil. rewrite Hnil in Hf. destruct Hf.
  - apply NoDup_map_fst_filter. rewrite map_fst_enumerate. apply seq_NoDup.
  - intros [i q] Hp. apply filter_In in Hp as [Hp Hq].
    apply In_enumerate in Hp. apply String.eqb_eq in Hq. auto.
Qed.

(** ** The identifier allocator *)

Lemma substring_append_skip (a b : string) (n : nat) :
  substring (String.length a) n (a ++ b) = substring 0 n b.
Proof.
  induction a as [|ch a IH]; simpl; [reflexivity | exact IH].
Qed.

Lemma substring_whole (b : string) : substring 0 (String.length b) b = b.
Proof.
  induction b as [|ch b IH]; simpl; [reflexivity | now rewrite IH].
Qed.

Lemma last_append (a s : string) (n : nat) :
  String.length s = n -> PyStr.last n (a ++ s) = s.
Proof.
  intros <-. unfold PyStr.last. rewrite string_length_append.
  replace (String.length a + String.length s - String.length s)%nat
    with (String.length a) by lia.
  rewrite substring_append_skip. apply substring_whole.
Qed.

Lemma startswith_append (a s : string) : PyStr.startswith a (a ++ s) = true.
Proof.
  unfold PyStr.startswith. induction a as [|ch a IH]; simpl.
  - now destruct s.
  - destruct (ascii_dec ch ch); [exact IH | congruence].
Qed.

(** A suffix between -99 and 999 is written on exactly three characters and
    reads back as the same number. *)
Lemma zfill3_roundtrip (n : Z) :
  (-100 < n < 1000)%Z ->
  String.length (PyStr.zfill 3 (PyStr.str n)) = 3%nat /\
  PyStr.int (PyStr.zfill 3 (PyStr.str n)) = Some n.
Proof.
  intro Hn.
  assert (Hall : forallb
            (fun k =>
               let z := (Z.of_nat k - 99)%Z in
               (String.length (PyStr.zfill 3 (PyStr.str z)) =? 3)%nat
               && match PyStr.int (PyStr.zfill 3 (PyStr.str z)) with
                  | Some z' => (z' =? z)%Z
                  | None => false
                  end)
            (seq 0 1099) = true) by (vm_compute; reflexivity).
  rewrite forallb_forall in Hall.
  specialize (Hall (Z.to_nat (n + 99))).
  replace (Z.of_nat (Z.to_nat (n + 99)) - 99)%Z with n in Hall by lia.
  cbv zeta in Hall.
  assert (Hin : In (Z.to_nat (n + 99)) (seq 0 1099)) by (apply in_seq; lia).
  apply Hall, andb_true_iff in Hin as [Hlen Hint].
  apply Nat.eqb_eq in Hlen. split; [exact Hlen|].
  destruct (PyStr.int (PyStr.zfill 3 (PyStr.str n))) as [z'|]; [|discriminate].
  apply Z.eqb_eq in Hint. now subst.
Qed.

Lemma suffixes_of_In (base_id : string) (used_ids : list string) (l : list Z)
    (x : string) :
  suffixes_of base_id used_ids = Some l ->
  In x used_ids -> PyStr.startswith base_id x = true ->
  exists n, PyStr.int (PyStr.last 3 x) = Some n /\ In n l.
Proof.
  revert l. induction used_ids as [|y used_ids IH]; intros l Hs Hin Hp;
    [destruct Hin|].
  simpl in Hs. destruct (PyStr.startswith base_id y) eqn:Ey.
  - destruct (PyStr.int (PyStr.last 3 y)) as [n|] eqn:En; [|discriminate].
    destruct (suffixes_of base_id used_ids) as [l'|]; [|discriminate].
    injection Hs as <-. destruct Hin as [-> | Hin].
    + exists n. split; [exact En | now left].
    + destruct (IH l' eq_refl Hin Hp) as (m & Hm & Hl).
      exists m. split; [exact Hm | now right].
  - destruct Hin as [-> | Hin]; [congruence|]. now apply IH.
Qed.

Lemma max_default_ge (d n : Z) (l : list Z) :
  In n l -> (n <= max_default d l)%Z.
Proof.
  destruct l as [|x l]; [intros []|]. simpl.
  assert (Hfold : forall l a, (a <= fold_left Z.max l a)%Z /\
                              forall m, In m l -> (m <= fold_left Z.max l a)%Z).
  { clear. induction l as [|y l IH]; intro a; simpl.
    - split; [lia | intros m []].
    - destruct (IH (Z.max a y)) as [Ha Hl]. split; [lia|].
      intros m [<- | Hm]; [lia | now apply Hl]. }
  destruct (Hfold l x) as [Hx Hl].
  intros [<- | Hn]; [exact Hx | now apply Hl].
Qed.

(** The rescan: as long as the next suffix lies between -99 and 999, the
    identifier allocated is none of the identifiers in use, existing or
    generated earlier. *)
Lemma generate_new_id_fresh (data_ids : list string) (orig_id_key : string)
    (generated_ids st' : list string) (new_id : string) (suffixes : list Z) :
  suffixes_of (PyStr.drop_last 2 orig_id_key) (data_ids ++ generated_ids)
  = Some suffixes ->
  (-100 < max_default 0 suffixes + 1 < 1000)%Z ->
  _generate_new_id data_ids orig_id_key generated_ids = Some (new_id, st') ->
  ~ In new_id (data_ids ++ generated_ids).
Proof.
  intros Hs Hrange Hgen Hin. unfold _generate_new_id in Hgen.
  rewrite Hs in Hgen. injection Hgen as <- _.
  destruct (zfill3_roundtrip _ Hrange) as [Hlen Hint].
  destruct (suffixes_of_In _ _ _ _ Hs Hin (startswith_append _ _))
    as (n & Hn & Hl).
  rewrite (last_append _ _ 3 Hlen), Hint in Hn. injection Hn as <-.
  apply (max_default_ge 0) in Hl. lia.
Qed.

(** The width of the identifiers: the resolution always gives 15
    characters, the plain relabel at least [id_length]. *)
Lemma resolved_ids_have_15_characters {G : Type} `{Geometry G}
    (num_cols count_cols data_ids : list string) (dup non_dup : list (row G))
    (pop_col : string) (m : Q) (st st' : list string)
    (resolved_gdf remaining_dup : list (row G)) :
  _resolve_multipart_by_contiguity num_cols count_cols data_ids dup non_dup
    pop_col m st = Some ((resolved_gdf, remaining_dup), st') ->
  Forall (fun r => String.length (poly_id r) = 15%nat) resolved_gdf.
Proof.
  unfold _resolve_multipart_by_contiguity, bind.
  destruct (resolve_loop _ _ _ _ _ _ _ _ _) as [[acc st1]|]; [|discriminate].
  unfold ret. intro E. injection E as <- _ _.
  apply Forall_map, Forall_forall. intros r _. apply finalize_row_id_length.
Qed.

Lemma relabelled_ids_have_id_length_at_least {G : Type} (id_length : nat)
    (data out : list (row G)) :
  _relabel_multipart_blocks id_length data = Some out ->
  Forall (fun r => (id_length <= String.length (poly_id r))%nat) out.
Proof.
  unfold _relabel_multipart_blocks.
  destruct (map_option normalise_id data) as [data0|]; [|discriminate].
  destruct (identify_multipart_polygons data0) as [singles dup].
  intro E. injection E as <-.
  apply Forall_map, Forall_forall. intros r _.
  rewrite pad_row_id_length. lia.
Qed.

(** ** Runs on the concrete inputs *)

Section Runs.

Import Grid Sample.
Open Scope string_scope.

(** C3 (evaluation at the failing inputs). Two groups whose fifteen-digit
    original identifiers share their first thirteen digits are each merged
    with a neighbour: the allocator hands out two different identifiers of
    sixteen characters, and the cut to fifteen characters makes them equal.
    With fourteen-digit identifiers, the identifier allocated to a merged
    nine-part group equals, after the cut, that of an untouched single
    polygon. *)
Theorem final_identifiers_collide :
  option_map (fun res => (map poly_id (fst (fst res)), snd res))
    (_resolve_multipart_by_contiguity num_cols count_cols long_ids
       long_dup long_pool "n_per" threshold [])
  = Some (["131010110010022"; "131010110010022"],
          ["1310101100100222"; "1310101100100221"]) /\
  option_map (fun res => (map poly_id (fst (fst res)), snd res))
    (_resolve_multipart_by_contiguity num_cols count_cols nine_ids
       nine_parts nine_pool "n_per" threshold [])
  = Some (["131010110010910"; "131010110010910"], ["131010110010910"]).
Proof.
  split; vm_compute; reflexivity.
Qed.

(** C9 (evaluation at the failing inputs). The plain relabel, with
    [id_length] 16, gives identifiers of 17 characters to the two parts of a
    block with a fifteen-digit identifier, and to the hundredth part of a
    block with a fourteen-digit identifier. *)
Theorem plain_relabel_identifier_of_17_characters :
  option_map (map (fun r => (poly_id r, String.length (poly_id r))))
    (_relabel_multipart_blocks 16 fifteen_digits)
  = Some [("13101011001001101", 17%nat); ("13101011001001102", 17%nat)] /\
  option_map (fun l => map (fun r => (poly_id r, String.length (poly_id r)))
                           (skipn 98 l))
    (_relabel_multipart_blocks 16 hundred_parts)
  = Some [("1310101100100199", 16%nat); ("13101011001001100", 17%nat)].
Proof.
  split; vm_compute; reflexivity.
Qed.

(** C8 (counterexample). A and B touch along a boundary of length 10, C
    touches neither, and the shipped classifier does not accept the group. *)
Lemma weak_classifier_rejects_isolated_part :
  touches (geometry strip_a) (geometry strip_b) = true /\
  shared_length (geometry strip_a) (geometry strip_b) == 10 /\
  touches (geometry island) (geometry strip_a) = false /\
  touches (geometry island) (geometry strip_b) = false /\
  _are_parts_contiguous three_parts threshold <> true.
Proof.
  repeat split; try (vm_compute; reflexivity).
  vm_compute. discriminate.
Qed.

(** The case the specification's note describes: two separate adjacent
    pairs pass the shipped classifier and fail the strict one. *)
Lemma two_pairs_pass_weak_fail_strict :
  _are_parts_contiguous two_pairs threshold = true /\
  are_parts_connected_strict two_pairs threshold = false.
Proof.
  split; vm_compute; reflexivity.
Qed.

(** C1 (counterexample). Two contiguous parts that both carry the count 5
    resolve to a row with count 5, not 10; two parts carrying 5 merged with a
    neighbour carrying 7 give 12, not 17. *)
Lemma counts_of_parts_are_not_summed :
  (exists r,
      option_map (fun res => fst (fst res))
        (_resolve_multipart_by_contiguity num_cols count_cols []
           [left_half; right_half] [] "n_per" threshold [])
      = Some [r] /\
      num r "n_per" == 5 /\
      ~ num r "n_per" == stated_count halves [] "n_per") /\
  (exists r,
      option_map (fun res => fst (fst res))
        (_resolve_multipart_by_contiguity num_cols count_cols two_groups_ids
           [west_a; west_b] [middle] "n_per" threshold [])
      = Some [r] /\
      num r "n_per" == 12 /\
      ~ num r "n_per" == stated_count west_parts [middle] "n_per").
Proof.
  split; eexists; (split; [vm_compute; reflexivity|]);
    split; vm_compute; [reflexivity | discriminate | reflexivity | discriminate].
Qed.

(** C4 (counterexample). A group of population 50, in parts of population
    20 and 30 with value 12, absorbs a neighbour of population 50 with value
    20: the merged value is 124/7 and not the 16 that the total population
    of the group as base weight would give. *)
Lemma base_weight_is_not_group_population :
  exists r st',
    _merge_parts_and_targets num_cols count_cols [] parts_20_30 [neighbour50]
      "13101011001005" "n_per" [] = Some (r, st') /\
    num r "prom_escolaridad18" == 124 # 7 /\
    stated_weighted_avg part20 parts_20_30 [neighbour50] "n_per"
      "prom_escolaridad18" == 16 /\
    ~ num r "prom_escolaridad18"
      == stated_weighted_avg part20 parts_20_30 [neighbour50] "n_per"
           "prom_escolaridad18".
Proof.
  do 2 eexists. split; [vm_compute; reflexivity|].
  repeat split; vm_compute; try reflexivity. discriminate.
Qed.

(** C2 (evaluation at the failing input). Two groups lie on either side
    of the single polygon [middle].  The west group is searched first and
    absorbs [middle]; the east group is then searched against the same pool
    and absorbs [middle] again, although the loop has recorded it as
    consumed.  The resolved frame holds two rows that both cover the area of
    [middle] and both count its population of 7 (5 + 7 and 4 + 7). *)
Theorem candidate_consumed_by_two_groups :
  map (fun grp => map fst (snd grp)) (groupby two_groups)
  = [map fst west_parts; map fst east_parts] /\
  (exists acc st',
      resolve_loop num_cols count_cols two_groups_ids [middle] "n_per"
        threshold (groupby two_groups) (mkLoop [] [] []) [] = Some (acc, st') /\
      consumed_nondup_idx acc = [0%nat; 0%nat] /\
      map orig_id (resolved_rows acc)
      = ["13101011001001_13101011001003"; "13101011001002_13101011001003"]) /\
  exists r1 r2 st',
    _resolve_multipart_by_contiguity num_cols count_cols two_groups_ids
      two_groups [middle] "n_per" threshold []
    = Some (([r1; r2], []), st') /\
    orig_id r1 = "13101011001001_13101011001003" /\
    orig_id r2 = "13101011001002_13101011001003" /\
    num middle "n_per" == 7 /\
    num r1 "n_per" == 12 /\ num r2 "n_per" == 11 /\
    forallb (fun c => mem_cell c (geometry r1)) (geometry middle) = true /\
    forallb (fun c => mem_cell c (geometry r2)) (geometry middle) = true.
Proof.
  split; [vm_compute; reflexivity|]. split.
  - do 2 eexists. split; [vm_compute; reflexivity|].
    split; vm_compute; reflexivity.
  - do 3 eexists. split; [vm_compute; reflexivity|].
    repeat split; vm_compute; reflexivity.
Qed.


(** *** The theorems at concrete inputs *)

Lemma are_parts_contiguous_degree_witness :
  (1 < List.length halves)%nat /\
  forall i, (i < List.length halves)%nat ->
            has_touching_sibling halves threshold i.
Proof.
  split; [simpl; lia|].
  apply (proj1 (proj2 (are_parts_contiguous_degree threshold) halves
                  ltac:(simpl; lia))).
  reflexivity.
Defined.

Lemma isolated_third_part_rejected_witness :
  _are_parts_contiguous three_parts threshold = false /\
  are_parts_connected_strict three_parts threshold = false.
Proof.
  apply (isolated_third_part_rejected (0%nat, strip_a) (1%nat, strip_b)
           (2%nat, island) threshold);
    try reflexivity.
  unfold threshold, Qle. simpl. lia.
Defined.



Lemma count_columns_of_resolved_group_witness :
  (exists r,
      resolve_group num_cols count_cols [] [] "n_per" threshold
        (mkLoop [] [] []) ("13101011001004", halves) []
      = Some (mkLoop [r] [0%nat; 1%nat] [], []) /\
      forall c, num r c = num left_half c) /\
  (exists r,
      _merge_parts_and_targets num_cols count_cols two_groups_ids west_parts
        [middle] "13101011001001" "n_per" []
      = Some (r, ["131010110010301"]) /\
      forall c, In c count_cols ->
        num r c == num west_a c + Qsum (map (fun t => num t c) [middle])).
Proof.
  split.
  - apply (proj1 (count_columns_of_resolved_group num_cols count_cols []
                    0%nat left_half [(1%nat, right_half)])
             [] "n_per" "13101011001004" threshold (mkLoop [] [] []) []).
    reflexivity.
  - apply (proj2 (count_columns_of_resolved_group num_cols count_cols
                    two_groups_ids 0%nat west_a [(1%nat, west_b)])
             middle [] "13101011001001" "n_per" [] ["131010110010301"]
             "131010110010301").
    reflexivity.
Defined.

Lemma merge_weighted_average_witness :
  exists r,
    _merge_parts_and_targets num_cols count_cols [] parts_50 [neighbour50]
      "13101011001005" "n_per" []
    = Some (r, ["131010110010001"]) /\
    num r "prom_escolaridad18" == 16.
Proof.
  destruct (merge_weighted_average num_cols count_cols [] 0%nat part50
              [(1%nat, part30)] neighbour50 [] "13101011001005" "n_per"
              [] ["131010110010001"] "131010110010001" eq_refl)
    as (r & Hr & Hc).
  exists r. split; [exact Hr|].
  apply (Hc "prom_escolaridad18"); try reflexivity.
  - simpl. tauto.
  - simpl. intuition discriminate.
Defined.

Lemma merge_keeps_first_target_fields_witness :
  exists r,
    _merge_parts_and_targets num_cols count_cols two_groups_ids west_parts
      [middle] "13101011001001" "n_per" []
    = Some (r, ["131010110010301"]) /\
    meta r = meta middle /\
    forall c, ~ In c num_cols -> ~ In c count_cols -> num r c = num middle c.
Proof.
  apply (merge_keeps_first_target_fields num_cols count_cols two_groups_ids
           0%nat west_a [(1%nat, west_b)] middle [] "13101011001001" "n_per"
           [] ["131010110010301"] "131010110010301").
  reflexivity.
Defined.

End Runs.

(** * Further properties *)

(** ** The identifier allocator, continued *)

Lemma set_add_In (s : string) (l : list string) : In s (set_add s l).
Proof.
  unfold set_add. destruct (mem_str s l) eqn:E.
  - now apply mem_str_iff.
  - now left.
Qed.

Lemma set_add_incl (s : string) (l : list string) : incl l (set_add s l).
Proof.
  unfold set_add. destruct (mem_str s l); intros x Hx; [exact Hx | now right].
Qed.

Lemma string_append_assoc (a b c : string) :
  ((a ++ b) ++ c = a ++ (b ++ c))%string.
Proof.
  induction a as [|ch a IH]; simpl; [reflexivity | now rewrite IH].
Qed.

Lemma suffixes_of_app (base_id : string) (a c : list string) :
  suffixes_of base_id (a ++ c)
  = match suffixes_of base_id a, suffixes_of base_id c with
    | Some x, Some y => Some (x ++ y)
    | _, _ => None
    end.
Proof.
  induction a as [|x a IH]; simpl.
  - now destruct (suffixes_of base_id c).
  - destruct (PyStr.startswith base_id x); [|exact IH].
    rewrite IH.
    destruct (PyStr.int (PyStr.last 3 x)), (suffixes_of base_id a),
      (suffixes_of base_id c); reflexivity.
Qed.

(** The suffixes collected are exactly the readings of the last three
    characters of the identifiers that start with the base. *)
Lemma suffixes_of_elements (base_id : string) (used_ids : list string)
    (l : list Z) (n : Z) :
  suffixes_of base_id used_ids = Some l ->
  In n l ->
  exists x, In x used_ids /\ PyStr.startswith base_id x = true /\
            PyStr.int (PyStr.last 3 x) = Some n.
Proof.
  revert l. induction used_ids as [|y used_ids IH]; intros l Hs Hn; simpl in Hs.
  - injection Hs as <-. destruct Hn.
  - destruct (PyStr.startswith base_id y) eqn:Ey.
    + destruct (PyStr.int (PyStr.last 3 y)) as [k|] eqn:Ek; [|discriminate].
      destruct (suffixes_of base_id used_ids) as [l'|]; [|discriminate].
      injection Hs as <-. destruct Hn as [<- | Hn].
      * exists y. split; [now left | auto].
      * destruct (IH l' eq_refl Hn) as (x & Hx & Hp & Hi).
        exists x. split; [now right | auto].
    + destruct (IH l Hs Hn) as (x & Hx & Hp & Hi).
      exists x. split; [now right | auto].
Qed.

Lemma suffixes_of_None_iff (base_id : string) (used_ids : list string) :
  suffixes_of base_id used_ids = None <->
  exists x, In x used_ids /\ PyStr.startswith base_id x = true /\
            PyStr.int (PyStr.last 3 x) = None.
Proof.
  induction used_ids as [|y used_ids IH]; simpl.
  - split; [discriminate | intros (x & [] & _)].
  - destruct (PyStr.startswith base_id y) eqn:Ey.
    + destruct (PyStr.int (PyStr.last 3 y)) as [k|] eqn:Ek.
      * destruct (suffixes_of base_id used_ids) as [l'|].
        -- split; [discriminate|].
           intros (x & [<- | Hx] & Hp & Hi); [congruence|].
           assert (Hc : Some l' = None) by (apply IH; eauto).
           discriminate Hc.
        -- split; [|reflexivity]. intros _.
           destruct (proj1 IH eq_refl) as (x & Hx & Hp & Hi).
           exists x. split; [now right | auto].
      * split; [|reflexivity]. intros _. exists y. split; [now left | auto].
    + rewrite IH. split.
      * intros (x & Hx & Hp & Hi). exists x. split; [now right | auto].
      * intros (x & [<- | Hx] & Hp & Hi); [congruence | eauto].
Qed.

Lemma max_default_In (d : Z) (l : list Z) :
  l <> [] -> In (max_default d l) l.
Proof.
  destruct l as [|x l]; [congruence|]. intros _. simpl.
  revert x. induction l as [|y l IH]; intro x; simpl; [now left|].
  destruct (IH (Z.max x y)) as [Heq | Hin]; [|now right; right].
  destruct (Z.max_spec x y) as [[_ Hm] | [_ Hm]]; rewrite Hm in *.
  - right. now left.
  - now left.
Qed.

Lemma string_forallb_substring (f : ascii -> bool) (n m : nat) (s : string) :
  string_forallb f s = true -> string_forallb f (substring n m s) = true.
Proof.
  revert n m. induction s as [|c s IH]; intros n m Hs.
  - destruct n, m; reflexivity.
  - simpl in Hs. apply andb_true_iff in Hs as [Hc Hs].
    destruct n as [|n]; simpl.
    + destruct m as [|m]; [reflexivity|]. simpl. now rewrite Hc, IH.
    + now apply IH.
Qed.

Lemma parse_digits_None_iff (s : string) (acc : Z) :
  PyStr.parse_digits s acc = None <-> string_forallb ascii_digit s = false.
Proof.
  revert acc. induction s as [|c s IH]; intro acc; simpl.
  - split; discriminate.
  - unfold PyStr.digit_of_ascii, ascii_digit.
    destruct ((48 <=? nat_of_ascii c)%nat && (nat_of_ascii c <=? 57)%nat);
      simpl; [apply IH | split; reflexivity].
Qed.

(** On identifiers of ASCII letters and digits the parser rejects exactly
    the strings that are not a non-empty run of digits. *)
Lemma int_alnum_None_iff (s : string) :
  ascii_alnum s = true ->
  (PyStr.int s = None <-> ascii_decimal s = false).
Proof.
  destruct s as [|c r]; intro Hs.
  - split; reflexivity.
  - assert (Hint : PyStr.int (String c r) = PyStr.parse_digits (String c r) 0).
    { unfold ascii_alnum in Hs. simpl in Hs.
      apply andb_true_iff in Hs as [Hc _].
      destruct c as [[] [] [] [] [] [] [] []];
        first [reflexivity | (vm_compute in Hc; discriminate Hc)]. }
    rewrite Hint. apply parse_digits_None_iff.
Qed.

(** X1. When the identifiers in use, in [self.data] or generated earlier,
    consist of ASCII letters and digits, [_generate_new_id] raises exactly
    when some identifier in use starts with the base and its last three
    characters are not a non-empty string of digits. *)
Theorem generate_new_id_raises_iff (data_ids : list string)
    (orig_id_key : string) (generated_ids : list string) :
  (forall x, In x (data_ids ++ generated_ids) -> ascii_alnum x = true) ->
  (_generate_new_id data_ids orig_id_key generated_ids = None <->
   exists x,
     In x (data_ids ++ generated_ids) /\
     PyStr.startswith (PyStr.drop_last 2 orig_id_key) x = true /\
     ascii_decimal (PyStr.last 3 x) = false).
Proof.
  intro Halnum.
  assert (Hraise : _generate_new_id data_ids orig_id_key generated_ids = None
                   <-> suffixes_of (PyStr.drop_last 2 orig_id_key)
                         (data_ids ++ generated_ids) = None).
  { unfold _generate_new_id. destruct (suffixes_of _ _); split; congruence. }
  rewrite Hraise, suffixes_of_None_iff.
  assert (Hlast : forall x, In x (data_ids ++ generated_ids) ->
            (PyStr.int (PyStr.last 3 x) = None
             <-> ascii_decimal (PyStr.last 3 x) = false)).
  { intros x Hx. apply int_alnum_None_iff. unfold PyStr.last.
    apply string_forallb_substring. exact (Halnum x Hx). }
  split; intros (x & Hx & Hp & Hi); exists x;
    (split; [exact Hx|]); (split; [exact Hp|]); now apply (Hlast x Hx).
Qed.

(** The next suffix when every suffix in use lies between 0 and 998. *)
Lemma next_suffix_in_range (base_id : string) (used_ids : list string) :
  (forall x, In x used_ids -> PyStr.startswith base_id x = true ->
             exists n, PyStr.int (PyStr.last 3 x) = Some n /\ (0 <= n < 999)%Z) ->
  exists l, suffixes_of base_id used_ids = Some l /\
            (0 < max_default 0 l + 1 < 1000)%Z.
Proof.
  intro Hall.
  destruct (suffixes_of base_id used_ids) as [l|] eqn:Es.
  - exists l. split; [reflexivity|].
    destruct l as [|k l]; [simpl; lia|].
    assert (Hin : In (max_default 0 (k :: l)) (k :: l))
      by (apply max_default_In; discriminate).
    destruct (suffixes_of_elements _ _ _ _ Es Hin) as (x & Hx & Hp & Hi).
    destruct (Hall x Hx Hp) as (n & Hn & Hr). rewrite Hi in Hn.
    injection Hn as <-. simpl. simpl in Hr. lia.
  - apply suffixes_of_None_iff in Es as (x & Hx & Hp & Hi).
    destruct (Hall x Hx Hp) as (n & Hn & _). congruence.
Qed.

(** X2. When the suffixes in use under the base all lie between 000 and
    998, [_generate_new_id] returns an identifier that is none of the
    identifiers in use: it is the base followed by three digits, and it is
    recorded among the generated identifiers. *)
Theorem allocated_id_is_new (data_ids : list string) (orig_id_key : string)
    (generated_ids : list string) :
  (forall x, In x (data_ids ++ generated_ids) ->
             PyStr.startswith (PyStr.drop_last 2 orig_id_key) x = true ->
             exists n, PyStr.int (PyStr.last 3 x) = Some n /\ (0 <= n < 999)%Z) ->
  exists new_id,
    _generate_new_id data_ids orig_id_key generated_ids
    = Some (new_id, set_add new_id generated_ids) /\
    ~ In new_id (data_ids ++ generated_ids) /\
    PyStr.startswith (PyStr.drop_last 2 orig_id_key) new_id = true /\
    String.length new_id
    = (String.length (PyStr.drop_last 2 orig_id_key) + 3)%nat.
Proof.
  intro Hall.
  destruct (next_suffix_in_range _ _ Hall) as (l & Hs & Hr).
  assert (Hgen : _generate_new_id data_ids orig_id_key generated_ids
                 = Some ((PyStr.drop_last 2 orig_id_key
                          ++ PyStr.zfill 3 (PyStr.str (max_default 0 l + 1)))%string,
                         set_add (PyStr.drop_last 2 orig_id_key
                          ++ PyStr.zfill 3 (PyStr.str (max_default 0 l + 1)))%string
                           generated_ids)).
  { unfold _generate_new_id. now rewrite Hs. }
  eexists. split; [exact Hgen|]. split; [|split].
  - eapply generate_new_id_fresh; [exact Hs | lia | exact Hgen].
  - apply startswith_append.
  - rewrite string_length_append.
    destruct (zfill3_roundtrip (max_default 0 l + 1)) as [Hlen _]; [lia|].
    now rewrite Hlen.
Qed.

(** X3. Two allocations in a row never return the same identifier, as
    long as the suffixes in use before the second one lie between 000 and
    998. *)
Theorem successive_allocations_differ (data_ids : list string)
    (key1 key2 : string) (st st1 : list string) (id1 : string) :
  _generate_new_id data_ids key1 st = Some (id1, st1) ->
  (forall x, In x (data_ids ++ st1) ->
             PyStr.startswith (PyStr.drop_last 2 key2) x = true ->
             exists n, PyStr.int (PyStr.last 3 x) = Some n /\ (0 <= n < 999)%Z) ->
  exists id2,
    _generate_new_id data_ids key2 st1 = Some (id2, set_add id2 st1) /\
    id2 <> id1.
Proof.
  intros H1 Hall.
  assert (Hin : In id1 st1).
  { unfold _generate_new_id in H1.
    destruct (suffixes_of _ _); [|discriminate].
    injection H1 as <- <-. apply set_add_In. }
  destruct (next_suffix_in_range _ _ Hall) as (l & Hs & Hr).
  eexists. split.
  - unfold _generate_new_id. rewrite Hs. reflexivity.
  - intro Heq.
    apply (generate_new_id_fresh data_ids key2 st1
             (set_add id1 st1) id1 l Hs); [lia | |].
    + unfold _generate_new_id. rewrite Hs, Heq. reflexivity.
    + apply in_or_app. now right.
Qed.

(** X4. When no identifier in use starts with the base, the identifier
    allocated is the base followed by [001]. *)
Theorem first_allocation_is_001 (data_ids : list string) (orig_id_key : string)
    (generated_ids : list string) :
  (forall x, In x (data_ids ++ generated_ids) ->
             PyStr.startswith (PyStr.drop_last 2 orig_id_key) x = false) ->
  _generate_new_id data_ids orig_id_key generated_ids
  = Some ((PyStr.drop_last 2 orig_id_key ++ "001")%string,
          set_add (PyStr.drop_last 2 orig_id_key ++ "001")%string generated_ids).
Proof.
  intro Hall. unfold _generate_new_id.
  assert (Hs : suffixes_of (PyStr.drop_last 2 orig_id_key)
                 (data_ids ++ generated_ids) = Some []).
  { induction (data_ids ++ generated_ids) as [|x used IH]; [reflexivity|].
    simpl. rewrite (Hall x (or_introl eq_refl)).
    apply IH. intros y Hy. apply Hall. now right. }
  rewrite Hs. reflexivity.
Qed.

(** X5. The suffix is not bounded to three digits: when the largest suffix
    in use under the base is 999, the identifier allocated is the base
    followed by [1000], and the next allocation for the same base returns
    that same identifier again. *)
Theorem allocation_past_999_repeats (data_ids : list string)
    (orig_id_key : string) (generated_ids : list string) (l : list Z) :
  suffixes_of (PyStr.drop_last 2 orig_id_key) (data_ids ++ generated_ids)
  = Some l ->
  max_default 0 l = 999%Z ->
  let new_id := (PyStr.drop_last 2 orig_id_key ++ "1000")%string in
  let st1 := set_add new_id generated_ids in
  _generate_new_id data_ids orig_id_key generated_ids = Some (new_id, st1) /\
  _generate_new_id data_ids orig_id_key st1 = Some (new_id, st1).
Proof.
  intros Hs Hmax new_id st1.
  assert (H1 : _generate_new_id data_ids orig_id_key generated_ids
               = Some (new_id, st1)).
  { unfold _generate_new_id. rewrite Hs, Hmax. reflexivity. }
  split; [exact H1|].
  unfold st1, set_add. destruct (mem_str new_id generated_ids) eqn:Em.
  - unfold st1, set_add in H1. rewrite Em in H1. exact H1.
  - rewrite suffixes_of_app in Hs.
    destruct (suffixes_of _ data_ids) as [la|] eqn:Ea; [|discriminate].
    destruct (suffixes_of _ generated_ids) as [lc|] eqn:Ec; [|discriminate].
    injection Hs as <-.
    assert (Hlast : PyStr.int (PyStr.last 3 new_id) = Some 0%Z).
    { unfold new_id.
      change "1000"%string with ("1" ++ "000")%string.
      rewrite <- string_append_assoc, (last_append _ "000" 3 eq_refl).
      reflexivity. }
    assert (Hs' : suffixes_of (PyStr.drop_last 2 orig_id_key)
                    (data_ids ++ new_id :: generated_ids)
                  = Some (la ++ 0%Z :: lc)).
    { rewrite suffixes_of_app, Ea. simpl.
      unfold new_id at 1. rewrite startswith_append.
      fold new_id. now rewrite Hlast, Ec. }
    assert (Hmax' : max_default 0 (la ++ 0%Z :: lc) = 999%Z).
    { assert (Hne : la ++ lc <> []).
      { intro Hnil. rewrite Hnil in Hmax. discriminate. }
      pose proof (max_default_In 0 (la ++ lc) Hne) as Hin.
      rewrite Hmax in Hin.
      assert (Hin' : In 999%Z (la ++ 0%Z :: lc)).
      { apply in_app_or in Hin. apply in_or_app.
        destruct Hin; [now left | right; now right]. }
      apply (max_default_ge 0) in Hin'.
      assert (Hne' : la ++ 0%Z :: lc <> []) by (now destruct la).
      pose proof (max_default_In 0 _ Hne') as Hm.
      assert (Hle : (max_default 0 (la ++ 0%Z :: lc) <= 999)%Z).
      { apply in_app_or in Hm. destruct Hm as [Hm | [Hm | Hm]].
        - rewrite <- Hmax. apply max_default_ge, in_or_app. now left.
        - rewrite <- Hm. lia.
        - rewrite <- Hmax. apply max_default_ge, in_or_app. now right. }
      lia. }
    unfold _generate_new_id. rewrite Hs', Hmax'.
    change (PyStr.drop_last 2 orig_id_key ++ PyStr.zfill 3 (PyStr.str (999 + 1)))%string
      with new_id.
    unfold set_add. simpl. rewrite String.eqb_refl. reflexivity.
Qed.

(** ** The contiguity test and lower thresholds *)

Section ContiguityThreshold.

Context {G : Type} `{Geometry G}.

(** X6. Lowering the threshold never turns an accepted group into a
    rejected one; the empty group and every single-part group are accepted
    at any threshold. *)
Theorem are_parts_contiguous_lower_threshold (parts : list (nat * row G))
    (m m' : Q) :
  m' <= m ->
  _are_parts_contiguous parts m = true ->
  _are_parts_contiguous parts m' = true.
Proof.
  intros Hle Hacc.
  destruct parts as [|p [|q rest]]; [reflexivity | reflexivity |].
  assert (Hlen : (1 < List.length (p :: q :: rest))%nat) by (simpl; lia).
  apply (are_parts_contiguous_iff _ _ Hlen).
  intros i Hi.
  destruct (proj1 (are_parts_contiguous_iff _ _ Hlen) Hacc i Hi)
    as (a & j & b & Ha & Hb & Hne & Ht & Hs).
  exists a, j, b. repeat split; auto.
  now apply Qle_trans with m.
Qed.

End ContiguityThreshold.

(** ** The single-neighbour search and ties *)



Section SingleNeighbourTies.

Context {G : Type} `{Geometry G}.



End SingleNeighbourTies.

(** ** The two-neighbour merge and the resolution loop, continued *)

Section ResolveAccounting.

Context {G : Type} `{Geometry G}.

Variable num_cols : list string.
Variable count_cols : list string.
Variable data_ids : list string.

(** X9. What [_merge_remaining_with_two_targets] returns.  Without a valid
    pair it returns nothing and allocates no identifier.  Otherwise the two
    indices returned are pool positions in increasing order, and the row is
    built on the candidate at the lower position: it has that candidate's
    metadata, [comb_adj] 2, the three original identifiers joined by
    underscores, the geometry of the parts united with both candidates, and
    count columns that add both candidates to the first part. *)
Theorem two_target_merge_result (l : nat) (base_dup : row G)
    (rest : list (nat * row G)) (non_dup : list (row G))
    (orig_id_key pop_col : string) (min_shared_len : Q) (st st' : list string)
    (result : option (row G * list nat)) :
  NoDup (map fst ((l, base_dup) :: rest)) ->
  _merge_remaining_with_two_targets num_cols count_cols data_ids
    ((l, base_dup) :: rest) non_dup orig_id_key pop_col min_shared_len st
  = Some (result, st') ->
  match result with
  | None =>
      st' = st /\
      two_target_search ((l, base_dup) :: rest) non_dup min_shared_len = None
  | Some (r, used_indices) =>
      exists i1 i2 t1 t2,
        used_indices = [i1; i2] /\ (i1 < i2)%nat /\
        nth_error non_dup i1 = Some t1 /\ nth_error non_dup i2 = Some t2 /\
        meta r = meta t1 /\
        comb_adj r = Some 2%Z /\ was_multipart r = Some 1%Z /\
        orig_id r
        = (orig_id base_dup ++ "_" ++ orig_id t1 ++ "_" ++ orig_id t2)%string /\
        geometry r
        = union (union (union_all (map (fun p => geometry (snd p))
                                       ((l, base_dup) :: rest)))
                       (geometry t1))
                (geometry t2) /\
        forall c, In c count_cols ->
                  num r c == num base_dup c + num t1 c + num t2 c
  end.
Proof.
  intros Hnd. unfold _merge_remaining_with_two_targets.
  destruct (two_target_search _ non_dup min_shared_len) as [[i1 i2]|] eqn:Es.
  - apply two_target_search_sound in Es as [(c1 & c2 & Hlt & Hc1 & Hc2 & _) _];
      [|exact Hnd].
    unfold bind, lift_option. rewrite Hc1. unfold ret at 1.
    rewrite Hc2. unfold ret at 1.
    destruct (_generate_new_id data_ids orig_id_key st) as [[new_id st1]|]
      eqn:Hgen.
    + destruct (merge_returns num_cols count_cols data_ids l base_dup rest c1
                  [c2] orig_id_key pop_col st st1 new_id Hgen)
        as (r & Hr & _ & Hmeta & Hadj & Hnum).
      rewrite Hr. unfold ret. intro E. injection E as <- <-.
      exists i1, i2, c1, c2. repeat (split; [assumption || reflexivity|]).
      unfold _merge_parts_and_targets, bind, ret in Hr. rewrite Hgen in Hr.
      injection Hr as <-. cbn [was_multipart orig_id geometry num].
      repeat (split; [reflexivity|]).
      intros c Hc. unfold set_cols.
      assert (Ha : mem_str c (avg_cols num_cols count_cols) = false).
      { apply mem_str_false_iff. rewrite In_avg_cols. tauto. }
      apply mem_str_iff in Hc. rewrite Ha, Hc.
      rewrite counts_sum_eq. simpl. lra.
    + unfold _merge_parts_and_targets, bind. rewrite Hgen. discriminate.
  - unfold ret. intro E. injection E as <- <-. auto.
Qed.

(** One iteration and the rows of the duplicated frame. *)
Lemma resolve_group_accounting (non_dup : list (row G)) (pop_col : string)
    (m : Q) (acc acc' : loop_state) (key : string)
    (parts : list (nat * row G)) (st st' : list string) :
  resolve_group num_cols count_cols data_ids non_dup pop_col m acc
    (key, parts) st = Some (acc', st') ->
  consumed_dup_idx acc'
  = consumed_dup_idx acc
    ++ (if group_resolved parts non_dup m then map fst parts else []) /\
  List.length (resolved_rows acc')
  = (List.length (resolved_rows acc)
     + (if group_resolved parts non_dup m then 1 else 0))%nat.
Proof.
  unfold resolve_group, group_resolved, absorbed_by.
  destruct (_are_parts_contiguous parts m).
  - destruct parts as [|[l first] rest]; [discriminate|].
    intro E. injection E as <- <-. simpl.
    rewrite length_app. simpl. auto.
  - destruct (_find_best_adjacent_polygon parts non_dup m) as [i|].
    + unfold bind, lift_option.
      destruct (nth_error non_dup i) as [t|]; [|discriminate].
      unfold ret at 1.
      destruct (_merge_parts_and_targets _ _ _ _ _ _ _ _) as [[r st1]|];
        [|discriminate].
      intro E. injection E as <- <-. simpl.
      rewrite length_app. simpl. auto.
    + unfold bind, _merge_remaining_with_two_targets.
      destruct (two_target_search parts non_dup m) as [[i1 i2]|].
      * unfold bind, lift_option.
        destruct (nth_error non_dup i1) as [t1|]; [|discriminate].
        unfold ret at 1.
        destruct (nth_error non_dup i2) as [t2|]; [|discriminate].
        unfold ret at 1.
        destruct (_merge_parts_and_targets _ _ _ _ _ _ _ _) as [[r st1]|];
          [|discriminate].
        unfold ret. intro E. injection E as <- <-. simpl.
        rewrite length_app. simpl. auto.
      * unfold ret. intro E. injection E as <- <-. simpl.
        rewrite app_nil_r. split; [reflexivity | lia].
Qed.

Lemma resolve_loop_accounting (non_dup : list (row G)) (pop_col : string)
    (m : Q) (groups : list (string * list (nat * row G)))
    (acc acc' : loop_state) (st st' : list string) :
  resolve_loop num_cols count_cols data_ids non_dup pop_col m groups acc st
  = Some (acc', st') ->
  consumed_dup_idx acc'
  = consumed_dup_idx acc
    ++ flat_map (fun grp => if group_resolved (snd grp) non_dup m
                            then map fst (snd grp) else []) groups /\
  List.length (resolved_rows acc')
  = (List.length (resolved_rows acc)
     + List.length (filter (fun grp => group_resolved (snd grp) non_dup m)
                           groups))%nat.
Proof.
  revert acc st. induction groups as [|grp groups IH]; intros acc st;
    cbn [resolve_loop flat_map filter].
  - unfold ret. intro E. injection E as <- <-.
    rewrite app_nil_r. split; [reflexivity | simpl; lia].
  - unfold bind.
    destruct (resolve_group num_cols count_cols data_ids non_dup pop_col m acc
                grp st) as [[acc1 st1]|] eqn:E1; [|discriminate].
    intro E. apply IH in E as [Ed El]. destruct grp as [key parts].
    apply resolve_group_accounting in E1 as [E1d E1l].
    cbn [snd]. rewrite Ed, El, E1d, E1l, <- app_assoc. split; [reflexivity|].
    destruct (group_resolved parts non_dup m); simpl; lia.
Qed.

(** The index labels of the rows in resolved groups. *)
Lemma In_consumed_dup_iff (dup non_dup : list (row G)) (m : Q) (i : nat)
    (r : row G) :
  nth_error dup i = Some r ->
  In i (flat_map (fun grp => if group_resolved (snd grp) non_dup m
                             then map fst (snd grp) else [])
                 (groupby dup)) <->
  group_resolved (parts_of dup (orig_id r)) non_dup m = true.
Proof.
  intro Hi. rewrite in_flat_map. split.
  - intros [[key parts] [Hg Hin]]. simpl in Hin.
    destruct (group_resolved parts non_dup m) eqn:Er; [|destruct Hin].
    apply in_map_iff in Hin as ([j q] & Hj & Hp). simpl in Hj. subst j.
    destruct (groupby_group dup key parts Hg) as (_ & _ & Hrows).
    destruct (Hrows (i, q) Hp) as [Hn Hk]. simpl in Hn, Hk.
    rewrite Hi in Hn. injection Hn as <-.
    unfold groupby in Hg. apply in_map_iff in Hg as (k & Heq & _).
    injection Heq as -> <-. rewrite <- Hk in Er. exact Er.
  - intro Er. exists (orig_id r, parts_of dup (orig_id r)). split.
    + unfold groupby, parts_of.
      apply in_map_iff. exists (orig_id r). split; [reflexivity|].
      apply In_sort_by, nodup_In, in_map.
      now apply nth_error_In with i.
    + simpl. rewrite Er. apply in_map_iff. exists (i, r).
      split; [reflexivity|]. unfold parts_of. apply filter_In.
      split; [now apply In_enumerate|]. simpl. apply String.eqb_refl.
Qed.

Lemma remaining_dup_iff (dup non_dup : list (row G))
    (pop_col : string) (min_shared_len : Q) (st st' : list string)
    (resolved_gdf remaining_dup : list (row G)) :
  _resolve_multipart_by_contiguity num_cols count_cols data_ids dup non_dup
    pop_col min_shared_len st
  = Some ((resolved_gdf, remaining_dup), st') ->
  forall r,
    In r remaining_dup <->
    exists i, nth_error dup i = Some r /\
              group_resolved (parts_of dup (orig_id r)) non_dup min_shared_len
              = false.
Proof.
  intros Hres r.
  unfold _resolve_multipart_by_contiguity, bind in Hres.
  destruct (resolve_loop _ _ _ _ _ _ _ _ _) as [[acc st1]|] eqn:E;
    [|discriminate].
  unfold ret in Hres. injection Hres as _ <- _.
  apply resolve_loop_accounting in E as [Ed _]. simpl in Ed.
  rewrite Ed, In_drop_index. split.
  - intros [i [Hi Hn]]. exists i. split; [exact Hi|].
    destruct (group_resolved _ non_dup min_shared_len) eqn:Er; [|reflexivity].
    exfalso. apply Hn.
    now apply (In_consumed_dup_iff dup non_dup min_shared_len i r Hi).
  - intros [i [Hi Er]]. exists i. split; [exact Hi|].
    intro Hin.
    apply (In_consumed_dup_iff dup non_dup min_shared_len i r Hi) in Hin.
    congruence.
Qed.

(** X10. The rows returned in [remaining_dup] are exactly the rows of the
    groups that no tier resolved: a row of the duplicated frame is returned
    there if and only if the group of all rows with its original identifier
    is neither contiguous nor merged with one or two candidates. *)
Theorem remaining_dup_is_unresolved_groups (dup non_dup : list (row G))
    (pop_col : string) (min_shared_len : Q) (st st' : list string)
    (resolved_gdf remaining_dup : list (row G)) :
  _resolve_multipart_by_contiguity num_cols count_cols data_ids dup non_dup
    pop_col min_shared_len st
  = Some ((resolved_gdf, remaining_dup), st') ->
  forall r,
    In r remaining_dup <->
    exists i, nth_error dup i = Some r /\
              group_resolved (parts_of dup (orig_id r)) non_dup min_shared_len
              = false.
Proof.
  apply remaining_dup_iff.
Qed.

(** X11. The resolved frame holds the pool rows that no group consumed,
    followed by exactly one row for each resolved group. *)
Theorem one_row_per_resolved_group (dup non_dup : list (row G))
    (pop_col : string) (min_shared_len : Q) (st st' : list string)
    (resolved_gdf remaining_dup : list (row G)) :
  _resolve_multipart_by_contiguity num_cols count_cols data_ids dup non_dup
    pop_col min_shared_len st
  = Some ((resolved_gdf, remaining_dup), st') ->
  List.length resolved_gdf
  = (List.length
       (drop_index non_dup
          (flat_map (fun grp => absorbed_by (snd grp) non_dup min_shared_len)
                    (groupby dup)))
     + List.length
         (filter (fun grp => group_resolved (snd grp) non_dup min_shared_len)
                 (groupby dup)))%nat.
Proof.
  intros Hres.
  unfold _resolve_multipart_by_contiguity, bind in Hres.
  destruct (resolve_loop _ _ _ _ _ _ _ _ _) as [[acc st1]|] eqn:E;
    [|discriminate].
  unfold ret in Hres. injection Hres as <- _ _.
  pose proof (resolve_loop_consumed num_cols count_cols data_ids _ _ _ _ _ _ _ _ E)
    as Hc.
  apply resolve_loop_accounting in E as [_ El]. simpl in Hc, El.
  rewrite length_map, length_app, Hc, El. reflexivity.
Qed.

(** With an empty pool no search finds a candidate. *)
Lemma resolve_group_empty_pool (pop_col : string) (m : Q) (acc : loop_state)
    (key : string) (parts : list (nat * row G)) (st : list string) :
  parts <> [] ->
  exists acc',
    resolve_group num_cols count_cols data_ids [] pop_col m acc (key, parts) st
    = Some (acc', st) /\
    consumed_nondup_idx acc' = consumed_nondup_idx acc /\
    exists rows,
      resolved_rows acc' = resolved_rows acc ++ rows /\
      Forall (fun r => comb_adj r = Some 0%Z /\ was_multipart r = Some 1%Z
                       /\ poly_id r = key) rows.
Proof.
  intro Hne. unfold resolve_group.
  destruct (_are_parts_contiguous parts m).
  - destruct parts as [|[l first] rest]; [congruence|].
    eexists. split; [reflexivity|]. simpl. split; [reflexivity|].
    eexists. split; [reflexivity|]. repeat constructor.
  - exists acc. split; [reflexivity|]. split; [reflexivity|].
    exists []. split; [now rewrite app_nil_r | constructor].
Qed.

(** X12. With an empty candidate pool the resolution never raises and
    allocates no identifier: the resolved frame consists of the rows of the
    directly contiguous groups, each with [comb_adj] 0 and [was_multipart]
    1, and every other group is returned unchanged in [remaining_dup]. *)
Theorem resolve_with_empty_pool (dup : list (row G)) (pop_col : string)
    (min_shared_len : Q) (st : list string) :
  exists resolved_gdf remaining_dup,
    _resolve_multipart_by_contiguity num_cols count_cols data_ids dup []
      pop_col min_shared_len st
    = Some ((resolved_gdf, remaining_dup), st) /\
    Forall (fun r => comb_adj r = Some 0%Z /\ was_multipart r = Some 1%Z)
           resolved_gdf /\
    forall r,
      In r remaining_dup <->
      exists i, nth_error dup i = Some r /\
                _are_parts_contiguous (parts_of dup (orig_id r)) min_shared_len
                = false.
Proof.
  assert (Hloop : forall groups acc,
             Forall (fun grp => snd grp <> []) groups ->
             exists acc' rows,
               resolve_loop num_cols count_cols data_ids [] pop_col
                 min_shared_len groups acc st = Some (acc', st) /\
               consumed_nondup_idx acc' = consumed_nondup_idx acc /\
               resolved_rows acc' = resolved_rows acc ++ rows /\
               Forall (fun r => comb_adj r = Some 0%Z
                                /\ was_multipart r = Some 1%Z) rows).
  { induction groups as [|[key parts] groups IH]; intros acc Hall.
    - exists acc, []. simpl. rewrite app_nil_r. auto.
    - apply Forall_cons_iff in Hall as [Hne Hall]. simpl in Hne.
      destruct (resolve_group_empty_pool pop_col min_shared_len acc key parts
                  st Hne) as (acc1 & E1 & Hc1 & rows1 & Hr1 & Hf1).
      destruct (IH acc1 Hall) as (acc' & rows & E & Hc & Hr & Hf).
      exists acc', (rows1 ++ rows). cbn [resolve_loop]. unfold bind. rewrite E1.
      split; [exact E|]. split; [congruence|].
      split; [rewrite Hr, Hr1, app_assoc; reflexivity|].
      apply Forall_app. split; [|exact Hf].
      eapply Forall_impl; [|exact Hf1]. intros r (Ha & Hb & _). auto. }
  destruct (Hloop (groupby dup) (mkLoop [] [] [])) as (acc & rows & E & Hc & Hr & Hf).
  { apply Forall_forall. intros [key parts] Hin.
    now destruct (groupby_group dup key parts Hin). }
  assert (Hres : _resolve_multipart_by_contiguity num_cols count_cols data_ids
                   dup [] pop_col min_shared_len st
                 = Some ((map finalize_row ([] ++ resolved_rows acc),
                          drop_index dup (consumed_dup_idx acc)), st)).
  { unfold _resolve_multipart_by_contiguity, bind. rewrite E. reflexivity. }
  eexists. eexists. split; [exact Hres|]. split.
  - simpl. rewrite Hr. simpl. apply Forall_map.
    eapply Forall_impl; [|exact Hf]. intros r Hrow. exact Hrow.
  - intro r.
    rewrite (remaining_dup_iff dup [] pop_col
               min_shared_len st st _ _ Hres r).
    split; intros [i [Hi Hg]]; exists i; (split; [exact Hi|]).
    + unfold group_resolved in Hg. apply orb_false_iff in Hg. tauto.
    + unfold group_resolved, absorbed_by. rewrite Hg. reflexivity.
Qed.

End ResolveAccounting.

(** ** The columns of the resolved frame and the constructor *)

(** X13. Every row of the resolved frame has an identifier of exactly 15
    characters and keeps, of the metadata columns, only [commune],
    [commune_id] and [sregion_id]: the zone type a merged row took from its
    first candidate is not returned. *)
Theorem resolved_frame_columns {G : Type} `{Geometry G}
    (num_cols count_cols data_ids : list string) (dup non_dup : list (row G))
    (pop_col : string) (min_shared_len : Q) (st st' : list string)
    (resolved_gdf remaining_dup : list (row G)) :
  _resolve_multipart_by_contiguity num_cols count_cols data_ids dup non_dup
    pop_col min_shared_len st
  = Some ((resolved_gdf, remaining_dup), st') ->
  Forall (fun r =>
            String.length (poly_id r) = 15%nat /\
            forall kv, In kv (meta r) ->
                       In (fst kv) ["commune"; "commune_id"; "sregion_id"]%string)
         resolved_gdf.
Proof.
  unfold _resolve_multipart_by_contiguity, bind.
  destruct (resolve_loop _ _ _ _ _ _ _ _ _) as [[acc st1]|]; [|discriminate].
  unfold ret. intro E. injection E as <- _ _.
  apply Forall_map, Forall_forall. intros r _. split.
  - apply finalize_row_id_length.
  - intros kv Hkv. cbn [finalize_row meta] in Hkv.
    apply filter_In in Hkv as [_ Hk]. now apply mem_str_iff in Hk.
Qed.

(** X14. The constructor raises exactly when some count column is not a
    numeric column.  When it returns, the numeric columns split into the
    count columns and the averaged columns: every numeric column is one or
    the other, never both, and every count column is a numeric column. *)
Theorem relabeller_init_splits_columns (id_length : nat)
    (num_cols count_cols : list string) :
  (relabeller_init id_length num_cols count_cols = None <->
   exists c, In c count_cols /\ ~ In c num_cols) /\
  (forall self,
      relabeller_init id_length num_cols count_cols = Some self ->
      self_generated_ids self = [] /\
      forall c,
        (In c (self_num_cols self) <->
         In c (self_count_cols self)
         \/ In c (avg_cols (self_num_cols self) (self_count_cols self))) /\
        ~ (In c (self_count_cols self)
           /\ In c (avg_cols (self_num_cols self) (self_count_cols self)))).
Proof.
  unfold relabeller_init.
  assert (Hm : forall c, In c (missing_cols num_cols count_cols) <->
                         In c count_cols /\ ~ In c num_cols).
  { intro c. unfold missing_cols.
    now rewrite filter_In, negb_true_iff, mem_str_false_iff. }
  destruct (missing_cols num_cols count_cols) as [|c0 rest] eqn:E.
  - split.
    + split; [discriminate|]. intros [c Hc]. apply Hm in Hc. destruct Hc.
    + intros self Hs. injection Hs as <-. simpl. split; [reflexivity|].
      intro c. rewrite In_avg_cols. split; [|tauto]. split.
      * intro Hn. destruct (in_dec string_dec c count_cols); [now left|].
        right. tauto.
      * intros [Hc | [Hn _]]; [|exact Hn].
        destruct (in_dec string_dec c num_cols) as [Hn | Hn]; [exact Hn|].
        exfalso. apply (proj2 (Hm c)). tauto.
  - split.
    + split; [|reflexivity]. intros _. exists c0. apply Hm. now left.
    + discriminate.
Qed.

(** ** The plain relabel, continued *)

(** A count between 1 and 99 is written on exactly two characters and
    reads back as the same number. *)
Lemma two_digit_count (n : nat) :
  (1 <= n <= 99)%nat ->
  String.length (PyStr.zfill 2 (PyStr.str (Z.of_nat n))) = 2%nat /\
  PyStr.int (PyStr.zfill 2 (PyStr.str (Z.of_nat n))) = Some (Z.of_nat n).
Proof.
  intro Hn.
  assert (Hall : forallb
            (fun k =>
               (String.length (PyStr.zfill 2 (PyStr.str (Z.of_nat k))) =? 2)%nat
               && match PyStr.int (PyStr.zfill 2 (PyStr.str (Z.of_nat k))) with
                  | Some z' => (z' =? Z.of_nat k)%Z
                  | None => false
                  end)
            (seq 1 99) = true) by (vm_compute; reflexivity).
  rewrite forallb_forall in Hall.
  assert (Hin : In n (seq 1 99)) by (apply in_seq; lia).
  apply Hall, andb_true_iff in Hin as [Hlen Hint].
  apply Nat.eqb_eq in Hlen. split; [exact Hlen|].
  destruct (PyStr.int (PyStr.zfill 2 (PyStr.str (Z.of_nat n)))) as [z'|];
    [|discriminate].
  apply Z.eqb_eq in Hint. now subst.
Qed.

Lemma substring_prefix_append (a b : string) :
  substring 0 (String.length a) (a ++ b) = a.
Proof.
  induction a as [|ch a IH]; simpl.
  - now destruct b.
  - now rewrite IH.
Qed.

Lemma drop_last_append (a s : string) (n : nat) :
  String.length s = n -> PyStr.drop_last n (a ++ s) = a.
Proof.
  intros <-. unfold PyStr.drop_last. rewrite string_length_append.
  replace (String.length a + String.length s - String.length s)%nat
    with (String.length a) by lia.
  apply substring_prefix_append.
Qed.

Lemma append_same_length_inj (a1 a2 b1 b2 : string) :
  String.length a1 = String.length a2 ->
  (a1 ++ b1 = a2 ++ b2)%string -> a1 = a2 /\ b1 = b2.
Proof.
  revert a2. induction a1 as [|ch a1 IH]; intros [|ch2 a2] Hlen E;
    simpl in *; try discriminate.
  - auto.
  - injection E as -> E. injection Hlen as Hlen.
    destruct (IH a2 Hlen E) as [-> ->]. auto.
Qed.

Lemma map_option_Forall2 {A B : Type} (f : A -> option B) (l : list A)
    (l' : list B) :
  map_option f l = Some l' -> Forall2 (fun x y => f x = Some y) l l'.
Proof.
  revert l'. induction l as [|x l IH]; intros l' E; simpl in E.
  - injection E as <-. constructor.
  - destruct (f x) as [y|] eqn:Ex; [|discriminate].
    destruct (map_option f l) as [ys|]; [|discriminate].
    injection E as <-. constructor; auto.
Qed.

Lemma map_option_None_iff {A B : Type} (f : A -> option B) (l : list A) :
  map_option f l = None <-> exists x, In x l /\ f x = None.
Proof.
  induction l as [|x l IH]; simpl.
  - split; [discriminate | intros (y & [] & _)].
  - destruct (f x) as [y|] eqn:Ex.
    + destruct (map_option f l) as [ys|].
      * split; [discriminate|].
        intros (z & [<- | Hz] & Hf); [congruence|].
        assert (Hc : Some ys = None) by (apply IH; eauto). discriminate Hc.
      * split; [|reflexivity]. intros _.
        destruct (proj1 IH eq_refl) as (z & Hz & Hf). eauto.
    + split; [|reflexivity]. intros _. eauto.
Qed.

Lemma count_occ_map_filter_le {A : Type} (f : A -> string) (g : A -> bool)
    (l : list A) (x : string) :
  (count_occ string_dec (map f (filter g l)) x
   <= count_occ string_dec (map f l) x)%nat.
Proof.
  induction l as [|a l IH]; simpl; [lia|].
  destruct (g a); simpl; destruct (string_dec (f a) x); lia.
Qed.

Lemma filter_partition_length {A : Type} (f g : A -> bool) (l : list A) :
  (forall x, g x = negb (f x)) ->
  (List.length (filter f l) + List.length (filter g l))%nat = List.length l.
Proof.
  intro Hfg. induction l as [|a l IH]; simpl; [reflexivity|].
  rewrite Hfg. destruct (f a); simpl; lia.
Qed.

Lemma NoDup_map_filter {A B : Type} (f : A -> B) (g : A -> bool) (l : list A) :
  NoDup (map f l) -> NoDup (map f (filter g l)).
Proof.
  induction l as [|a l IH]; simpl; intro Hnd; [constructor|].
  apply NoDup_cons_iff in Hnd as [Ha Hnd].
  destruct (g a); simpl; [|now apply IH].
  constructor; [|now apply IH].
  intro Hin. apply Ha. apply in_map_iff in Hin as (y & Hy & Hin).
  apply filter_In in Hin as [Hin _]. rewrite <- Hy. now apply in_map.
Qed.

(** The identifiers that occur once are pairwise distinct. *)
Lemma NoDup_occurring_once (l sub : list string) :
  (forall x, (count_occ string_dec sub x <= count_occ string_dec l x)%nat) ->
  NoDup (filter (fun x => (count_occ string_dec l x <=? 1)%nat) sub).
Proof.
  induction sub as [|y sub IH]; intro Hle; simpl; [constructor|].
  assert (Hsub : forall x, (count_occ string_dec sub x
                            <= count_occ string_dec l x)%nat).
  { intro x. specialize (Hle x). simpl in Hle.
    destruct (string_dec y x); lia. }
  destruct (count_occ string_dec l y <=? 1)%nat eqn:E; [|now apply IH].
  constructor; [|now apply IH].
  intro Hin. apply filter_In in Hin as [Hin _].
  apply Nat.leb_le in E. specialize (Hle y). simpl in Hle.
  destruct (string_dec y y); [|congruence].
  apply (count_occ_In string_dec) in Hin. lia.
Qed.

(** [cumcount1]: the count of a row is one more than the number of earlier
    rows with its identifier. *)
Lemma cumcount1_bounds (seen ids : list string) (x : string) (c : nat) :
  In (x, c) (combine ids (cumcount1 seen ids)) ->
  (count_occ string_dec seen x + 1 <= c
   <= count_occ string_dec seen x + count_occ string_dec ids x)%nat.
Proof.
  revert seen. induction ids as [|y ids IH]; intros seen Hin; [destruct Hin|].
  simpl in Hin. destruct Hin as [Heq | Hin].
  - injection Heq as -> <-. simpl. destruct (string_dec x x); [lia | congruence].
  - apply IH in Hin. simpl in *. destruct (string_dec y x); lia.
Qed.

Lemma cumcount1_NoDup (seen ids : list string) :
  NoDup (combine ids (cumcount1 seen ids)).
Proof.
  revert seen. induction ids as [|y ids IH]; intro seen; simpl; [constructor|].
  constructor; [|apply IH].
  intro Hin. apply cumcount1_bounds in Hin. simpl in Hin.
  destruct (string_dec y y); [lia | congruence].
Qed.

Lemma cumcount1_length (seen ids : list string) :
  List.length (cumcount1 seen ids) = List.length ids.
Proof.
  revert seen. induction ids as [|y ids IH]; intro seen; simpl;
    [reflexivity | now rewrite IH].
Qed.

Lemma combine_map_l {A B C : Type} (f : A -> B) (l : list A) (l2 : list C) :
  combine (map f l) l2 = map (fun p => (f (fst p), snd p)) (combine l l2).
Proof.
  revert l2. induction l as [|a l IH]; intros [|c l2]; simpl;
    try reflexivity. now rewrite IH.
Qed.

Section PlainRelabelFacts.

Context {G : Type}.

Variable id_length : nat.

(** The rows with a repeated identifier, each with its count. *)
Lemma counted_duplicates (data0 : list (row G)) :
  let dup := snd (identify_multipart_polygons data0) in
  let counted := combine dup (cumcount1 [] (map poly_id dup)) in
  map fst counted = dup /\
  NoDup (map (fun rc => (poly_id (fst rc), snd rc)) counted) /\
  forall r c, In (r, c) counted ->
    In r data0 /\
    (1 < count_occ string_dec (map poly_id data0) (poly_id r))%nat /\
    (1 <= c <= count_occ string_dec (map poly_id data0) (poly_id r))%nat.
Proof.
  intros dup counted. split; [|split].
  - unfold counted.
    assert (Hlen : List.length dup
                   = List.length (cumcount1 [] (map poly_id dup)))
      by now rewrite cumcount1_length, length_map.
    clear counted. revert Hlen.
    generalize (cumcount1 [] (map poly_id dup)).
    induction dup as [|r dup' IH]; intros [|c cs] Hlen; simpl in *;
      try discriminate; [reflexivity|].
    injection Hlen as Hlen. now rewrite IH.
  - unfold counted. rewrite <- combine_map_l. apply cumcount1_NoDup.
  - intros r c Hin.
    assert (Hr : In r dup) by (apply in_combine_l in Hin; exact Hin).
    unfold dup, identify_multipart_polygons in Hr. simpl in Hr.
    apply filter_In in Hr as [Hr Hocc]. apply Nat.ltb_lt in Hocc.
    split; [exact Hr|]. split; [exact Hocc|].
    assert (Hc : In (poly_id r, c)
                   (combine (map poly_id dup) (cumcount1 [] (map poly_id dup)))).
    { rewrite combine_map_l. apply in_map_iff. exists (r, c). auto. }
    apply cumcount1_bounds in Hc. simpl in Hc.
    pose proof (count_occ_map_filter_le poly_id
                  (fun r0 => (1 <? count_occ string_dec (map poly_id data0)
                                     (poly_id r0))%nat)
                  data0 (poly_id r)) as Hle.
    unfold dup, identify_multipart_polygons in Hc. simpl in Hc. lia.
Qed.

(** X15. When every identifier consists of ASCII letters and digits and has
    at most 18 characters (so that its value fits the 64-bit integer of
    [astype(int)]), [_relabel_multipart_blocks] raises exactly when some
    identifier is not a non-empty string of digits. *)
Theorem plain_relabel_raises_iff (data : list (row G)) :
  (forall r, In r data ->
             ascii_alnum (poly_id r) = true /\
             (String.length (poly_id r) <= 18)%nat) ->
  (_relabel_multipart_blocks id_length data = None <->
   exists r, In r data /\ ascii_decimal (poly_id r) = false).
Proof.
  intro Hids.
  assert (Hrow : forall r, In r data ->
            (normalise_id r = None <-> ascii_decimal (poly_id r) = false)).
  { intros r Hr. destruct (Hids r Hr) as [Ha _].
    rewrite <- (int_alnum_None_iff (poly_id r) Ha). unfold normalise_id.
    destruct (PyStr.int (poly_id r)); split; congruence. }
  unfold _relabel_multipart_blocks.
  destruct (map_option normalise_id data) as [data0|] eqn:E.
  - destruct (identify_multipart_polygons data0). split; [discriminate|].
    intros (r & Hr & Hd).
    assert (Hn : map_option normalise_id data = None).
    { apply map_option_None_iff. exists r. split; [exact Hr|].
      now apply (Hrow r Hr). }
    congruence.
  - split; [|reflexivity]. intros _.
    apply map_option_None_iff in E as (r & Hr & Hn).
    exists r. split; [exact Hr|]. now apply (Hrow r Hr).
Qed.

Lemma normalised_rows (data data0 : list (row G)) :
  map_option normalise_id data = Some data0 ->
  List.length data0 = List.length data /\
  forall r, In r data0 -> orig_id r = poly_id r.
Proof.
  intro E. apply map_option_Forall2 in E.
  induction E as [|x y l l' Hxy _ [IHlen IH]]; [split; [reflexivity | intros r []]|].
  split; [simpl; now rewrite IHlen|].
  intros r [<- | Hr]; [|now apply IH].
  unfold normalise_id in Hxy. destruct (PyStr.int (poly_id x)); [|discriminate].
  injection Hxy as <-. reflexivity.
Qed.

(** The frame returned: the single rows kept, then the rows with a repeated
    identifier under their suffixed identifiers, all padded. *)
Lemma relabel_output (data data0 : list (row G)) :
  map_option normalise_id data = Some data0 ->
  let singles := fst (identify_multipart_polygons data0) in
  let dup := snd (identify_multipart_polygons data0) in
  let counted := combine dup (cumcount1 [] (map poly_id dup)) in
  let dup' :=
    map (fun rc => with_id (suffixed_id (poly_id (fst rc)) (snd rc)) 1 (fst rc))
        counted in
  let kept :=
    filter (fun r => negb (mem_str (poly_id r)
                             (map (fun r => PyStr.drop_last 2 (poly_id r)) dup')))
           singles in
  _relabel_multipart_blocks id_length data
  = Some (map (pad_row id_length)
              (map (fun r => with_id (poly_id r) 0 r) kept ++ dup')).
Proof.
  intro E. unfold _relabel_multipart_blocks. rewrite E. reflexivity.
Qed.

(** X16. Every row returned by the plain relabel has an identifier that
    starts with its original identifier, and its [was_multipart] flag tells
    whether that original identifier is shared: the flag is 1 when the
    original identifier occurs more than once among the (normalised) input
    identifiers and 0 when it occurs once. *)
Theorem plain_relabel_rows (data out : list (row G)) :
  _relabel_multipart_blocks id_length data = Some out ->
  exists data0,
    map_option normalise_id data = Some data0 /\
    Forall (fun r =>
              PyStr.startswith (orig_id r) (poly_id r) = true /\
              ((was_multipart r = Some 0%Z /\
                count_occ string_dec (map poly_id data0) (orig_id r) = 1%nat)
               \/ (was_multipart r = Some 1%Z /\
                   (1 < count_occ string_dec (map poly_id data0) (orig_id r))%nat)))
           out.
Proof.
  intro Hout.
  destruct (map_option normalise_id data) as [data0|] eqn:E.
  2:{ unfold _relabel_multipart_blocks in Hout. rewrite E in Hout.
      discriminate. }
  exists data0. split; [reflexivity|].
  rewrite (relabel_output data data0 E) in Hout. injection Hout as <-.
  destruct (normalised_rows data data0 E) as [_ Horig].
  destruct (counted_duplicates data0) as (_ & _ & Hdup).
  apply Forall_map, Forall_app. split.
  - apply Forall_map, Forall_forall. intros r Hr.
    apply filter_In in Hr as [Hr _].
    unfold identify_multipart_polygons in Hr. simpl in Hr.
    apply filter_In in Hr as [Hr Hocc]. apply Nat.leb_le in Hocc.
    cbn [pad_row with_id poly_id orig_id was_multipart].
    rewrite (Horig r Hr). split.
    + unfold PyStr.ljust. apply startswith_append.
    + left. split; [reflexivity|].
      assert (Hin : In (poly_id r) (map poly_id data0)) by now apply in_map.
      apply (count_occ_In string_dec) in Hin. lia.
  - apply Forall_map, Forall_forall. intros [r c] Hrc.
    destruct (Hdup r c Hrc) as (Hr & Hocc & _).
    cbn [pad_row with_id poly_id orig_id was_multipart fst snd].
    rewrite (Horig r Hr). split.
    + unfold PyStr.ljust, suffixed_id.
      rewrite string_append_assoc. apply startswith_append.
    + right. auto.
Qed.

(** The identifier of a counted row when its count is below 100. *)
Lemma suffixed_id_facts (id : string) (c : nat) :
  (1 <= c <= 99)%nat ->
  String.length (suffixed_id id c) = (String.length id + 2)%nat /\
  PyStr.drop_last 2 (suffixed_id id c) = id.
Proof.
  intro Hc. destruct (two_digit_count c Hc) as [Hlen _]. unfold suffixed_id.
  split.
  - now rewrite string_length_append, Hlen.
  - now apply drop_last_append.
Qed.

(** X17. When no identifier occurs a hundred times or more, the plain
    relabel returns as many rows as it was given: no polygon is dropped. *)
Theorem plain_relabel_keeps_every_row (data data0 : list (row G)) :
  map_option normalise_id data = Some data0 ->
  (forall x, (count_occ string_dec (map poly_id data0) x < 100)%nat) ->
  exists out,
    _relabel_multipart_blocks id_length data = Some out /\
    List.length out = List.length data.
Proof.
  intros E Hocc. eexists. split; [exact (relabel_output data data0 E)|].
  destruct (normalised_rows data data0 E) as [Hlen _].
  destruct (counted_duplicates data0) as (Hfst & _ & Hdup).
  set (dup := snd (identify_multipart_polygons data0)) in *.
  set (counted := combine dup (cumcount1 [] (map poly_id dup))) in *.
  rewrite length_map, length_app, !length_map.
  assert (Hkeep : forall r, In r (fst (identify_multipart_polygons data0)) ->
            negb (mem_str (poly_id r)
                    (map (fun r0 => PyStr.drop_last 2 (poly_id r0))
                         (map (fun rc => with_id
                                 (suffixed_id (poly_id (fst rc)) (snd rc)) 1
                                 (fst rc)) counted))) = true).
  { intros r Hr. apply negb_true_iff, mem_str_false_iff. intro Hin.
    rewrite map_map in Hin. apply in_map_iff in Hin as ([d c] & Heq & Hdc).
    cbn [with_id poly_id fst snd] in Heq.
    destruct (Hdup d c Hdc) as (_ & Hd & Hc).
    destruct (suffixed_id_facts (poly_id d) c) as [_ Hdrop].
    { specialize (Hocc (poly_id d)). lia. }
    rewrite Hdrop in Heq.
    unfold identify_multipart_polygons in Hr. simpl in Hr.
    apply filter_In in Hr as [_ Hr]. apply Nat.leb_le in Hr.
    rewrite <- Heq in Hr. lia. }
  assert (Hfilter : forall (l : list (row G)) (f : row G -> bool),
             (forall r, In r l -> f r = true) -> filter f l = l).
  { induction l as [|a l IH]; intros f Hf; simpl; [reflexivity|].
    rewrite (Hf a (or_introl eq_refl)), IH; [reflexivity|].
    intros r Hr. apply Hf. now right. }
  rewrite (Hfilter _ _ Hkeep).
  assert (Hc : List.length counted = List.length dup).
  { unfold counted.
    rewrite length_combine, cumcount1_length, length_map. lia. }
  rewrite Hc, <- Hlen. unfold dup, identify_multipart_polygons. simpl.
  apply filter_partition_length. intro r.
  destruct (count_occ string_dec (map poly_id data0) (poly_id r))
    as [|[|k]]; reflexivity.
Qed.

(** X18. When every identifier leaves room for the two digits of the count
    and no identifier occurs a hundred times or more, every identifier
    returned by the plain relabel has exactly [id_length] characters. *)
Theorem plain_relabel_exact_width (data data0 out : list (row G)) :
  map_option normalise_id data = Some data0 ->
  (forall r, In r data0 -> (String.length (poly_id r) + 2 <= id_length)%nat) ->
  (forall x, (count_occ string_dec (map poly_id data0) x < 100)%nat) ->
  _relabel_multipart_blocks id_length data = Some out ->
  Forall (fun r => String.length (poly_id r) = id_length) out.
Proof.
  intros E Hlen Hocc Hout.
  rewrite (relabel_output data data0 E) in Hout. injection Hout as <-.
  destruct (counted_duplicates data0) as (_ & _ & Hdup).
  apply Forall_map, Forall_app. split.
  - apply Forall_map, Forall_forall. intros r Hr.
    apply filter_In in Hr as [Hr _].
    unfold identify_multipart_polygons in Hr. simpl in Hr.
    apply filter_In in Hr as [Hr _].
    rewrite pad_row_id_length. cbn [with_id poly_id].
    specialize (Hlen r Hr). lia.
  - apply Forall_map, Forall_forall. intros [r c] Hrc.
    destruct (Hdup r c Hrc) as (Hr & _ & Hc).
    rewrite pad_row_id_length. cbn [with_id poly_id fst snd].
    destruct (suffixed_id_facts (poly_id r) c) as [Hs _].
    { specialize (Hocc (poly_id r)). lia. }
    rewrite Hs. specialize (Hlen r Hr). lia.
Qed.

Lemma NoDup_map_by_key {A K B : Type} (key : A -> K) (h : A -> B)
    (l : list A) :
  NoDup (map key l) ->
  (forall x y, In x l -> In y l -> h x = h y -> key x = key y) ->
  NoDup (map h l).
Proof.
  induction l as [|a l IH]; simpl; intros Hnd Hinj; [constructor|].
  apply NoDup_cons_iff in Hnd as [Ha Hnd]. constructor.
  - intro Hin. apply in_map_iff in Hin as (y & Hy & Hyl).
    apply Ha. rewrite <- (Hinj y a (or_intror Hyl) (or_introl eq_refl) Hy).
    now apply in_map.
  - apply IH; [exact Hnd|]. intros x y Hx Hy. apply Hinj; now right.
Qed.

Lemma NoDup_append_disjoint {A : Type} (l1 l2 : list A) :
  NoDup l1 -> NoDup l2 -> (forall x, In x l1 -> ~ In x l2) -> NoDup (l1 ++ l2).
Proof.
  induction l1 as [|a l1 IH]; simpl; intros H1 H2 Hd; [exact H2|].
  apply NoDup_cons_iff in H1 as [Ha H1]. constructor.
  - intro Hin. apply in_app_or in Hin as [Hin | Hin]; [contradiction|].
    exact (Hd a (or_introl eq_refl) Hin).
  - apply IH; auto.
Qed.

Lemma map_filter_comm {A : Type} (f : A -> string) (P : string -> bool)
    (l : list A) :
  map f (filter (fun a => P (f a)) l) = filter P (map f l).
Proof.
  induction l as [|a l IH]; simpl; [reflexivity|].
  destruct (P (f a)); simpl; now rewrite IH.
Qed.

(** X19. When the identifiers all have the same length, leave room for
    the two digits of the count, and none occurs a hundred times or more, the
    identifiers returned by the plain relabel are pairwise distinct. *)
Theorem plain_relabel_ids_distinct (data data0 out : list (row G)) (n : nat) :
  map_option normalise_id data = Some data0 ->
  (forall r, In r data0 -> String.length (poly_id r) = n) ->
  (n + 2 <= id_length)%nat ->
  (forall x, (count_occ string_dec (map poly_id data0) x < 100)%nat) ->
  _relabel_multipart_blocks id_length data = Some out ->
  NoDup (map poly_id out).
Proof.
  intros E Hn Hroom Hocc Hout.
  rewrite (relabel_output data data0 E) in Hout. injection Hout as <-.
  destruct (counted_duplicates data0) as (_ & Hkeys & Hdup).
  unfold identify_multipart_polygons in Hkeys, Hdup.
  cbn [fst snd] in Hkeys, Hdup.
  match type of Hkeys with
  | NoDup (map _ ?c) => set (counted := c) in *
  end.
  match goal with
  | |- context [filter ?f (filter ?g data0)] =>
      set (kept := filter f (filter g data0))
  end.
  assert (Hkept : forall r, In r kept ->
            In r data0 /\
            (count_occ string_dec (map poly_id data0) (poly_id r) <= 1)%nat).
  { intros r Hr. apply filter_In in Hr as [Hr _].
    apply filter_In in Hr as [Hr Ho]. apply Nat.leb_le in Ho. auto. }
  rewrite !map_map, map_app, !map_map.
  cbn [pad_row with_id poly_id fst snd].
  apply NoDup_append_disjoint.
  - apply (NoDup_map_by_key poly_id).
    + apply NoDup_map_filter.
      rewrite (map_filter_comm poly_id
                 (fun x => (count_occ string_dec (map poly_id data0) x <=? 1)%nat)).
      apply NoDup_occurring_once. intro x. lia.
    + intros x y Hx Hy Heq. unfold PyStr.ljust in Heq.
      destruct (Hkept x Hx) as [Hx0 _]. destruct (Hkept y Hy) as [Hy0 _].
      rewrite (Hn x Hx0), (Hn y Hy0) in Heq.
      apply append_same_length_inj in Heq as [Heq _]; [exact Heq|].
      now rewrite (Hn x Hx0), (Hn y Hy0).
  - apply (NoDup_map_by_key (fun rc => (poly_id (fst rc), snd rc)));
      [exact Hkeys|].
    intros [r1 c1] [r2 c2] H1 H2 Heq. cbn [fst snd] in *.
    destruct (Hdup r1 c1 H1) as (Hr1 & _ & Hc1).
    destruct (Hdup r2 c2 H2) as (Hr2 & _ & Hc2).
    assert (Hb1 : (1 <= c1 <= 99)%nat)
      by (specialize (Hocc (poly_id r1)); lia).
    assert (Hb2 : (1 <= c2 <= 99)%nat)
      by (specialize (Hocc (poly_id r2)); lia).
    destruct (suffixed_id_facts (poly_id r1) c1 Hb1) as [Hl1 _].
    destruct (suffixed_id_facts (poly_id r2) c2 Hb2) as [Hl2 _].
    unfold PyStr.ljust in Heq. rewrite Hl1, Hl2, (Hn r1 Hr1), (Hn r2 Hr2) in Heq.
    apply append_same_length_inj in Heq as [Heq _];
      [|now rewrite Hl1, Hl2, (Hn r1 Hr1), (Hn r2 Hr2)].
    unfold suffixed_id in Heq.
    apply append_same_length_inj in Heq as [Hid Hsfx];
      [|now rewrite (Hn r1 Hr1), (Hn r2 Hr2)].
    destruct (two_digit_count c1 Hb1) as [_ Hi1].
    destruct (two_digit_count c2 Hb2) as [_ Hi2].
    rewrite Hsfx, Hi2 in Hi1. injection Hi1 as Hc.
    apply Nat2Z.inj in Hc. now rewrite Hid, Hc.
  - intros s Hs Hs'.
    apply in_map_iff in Hs as (r & <- & Hr).
    apply in_map_iff in Hs' as ([d c] & Heq & Hdc). cbn [fst snd] in Heq.
    destruct (Hkept r Hr) as [Hr0 Hocc_r].
    destruct (Hdup d c Hdc) as (Hd0 & Hocc_d & _).
    unfold PyStr.ljust, suffixed_id in Heq.
    rewrite string_append_assoc in Heq.
    apply append_same_length_inj in Heq as [Heq _];
      [|now rewrite (Hn r Hr0), (Hn d Hd0)].
    rewrite Heq in Hocc_d. lia.
Qed.

End PlainRelabelFacts.

(** ** Hidden polygons *)

Section HiddenFacts.

Context {G : Type} `{Overlay G}.

Lemma hidden_step_labels (idx : nat) (poly : row G) (l : list (row G)) :
  map fst (flat_map (hidden_step idx poly) l)
  = repeat idx (List.length (filter (fun o => hides o poly) l)).
Proof.
  induction l as [|o l IH]; simpl; [reflexivity|].
  rewrite map_app, IH. unfold hidden_step, hides.
  destruct (intersects (geometry poly) (geometry o)
            && negb (geom_eqb (geometry poly) (geometry o))); simpl;
    [|reflexivity].
  destruct (is_empty (difference (geometry poly) (geometry o)));
    reflexivity.
Qed.

Lemma hidden_labels_count (gdf : list (row G)) (rows : list (nat * row G))
    (i : nat) :
  NoDup (map fst rows) ->
  count_occ Nat.eq_dec
    (map fst (flat_map (fun ip => flat_map (hidden_step (fst ip) (snd ip)) gdf)
                       rows)) i
  = match find (fun ip => (fst ip =? i)%nat) rows with
    | Some ip => List.length (filter (fun o => hides o (snd ip)) gdf)
    | None => 0%nat
    end.
Proof.
  induction rows as [|[j q] rows IH]; intro Hnd; simpl; [reflexivity|].
  apply NoDup_cons_iff in Hnd as [Hj Hnd].
  rewrite map_app, count_occ_app, hidden_step_labels, (IH Hnd).
  destruct (Nat.eqb_spec j i) as [-> | Hne].
  - rewrite count_occ_repeat_eq by reflexivity.
    destruct (find (fun ip => (fst ip =? i)%nat) rows) as [ip|] eqn:Ef;
      [|cbn [snd]; apply Nat.add_0_r].
    apply find_some in Ef as [Hin Heq]. apply Nat.eqb_eq in Heq.
    exfalso. apply Hj. cbn [fst]. rewrite <- Heq.
    exact (in_map fst rows ip Hin).
  - rewrite count_occ_repeat_neq by (intro Hc; apply Hne; now symmetry).
    reflexivity.
Qed.

(** X20. [find_hidden_polygons] reports a polygon exactly when some row of
    the frame with a different geometry intersects it and leaves nothing of
    it outside: a polygon is never reported on account of a row with an equal
    geometry, itself included. *)
Theorem hidden_index_iff (gdf : list (row G)) (i : nat) :
  In i (snd (find_hidden_polygons gdf)) <->
  exists poly other,
    nth_error gdf i = Some poly /\ In other gdf /\
    intersects (geometry poly) (geometry other) = true /\
    geom_eqb (geometry poly) (geometry other) = false /\
    is_empty (difference (geometry poly) (geometry other)) = true.
Proof.
  unfold find_hidden_polygons. cbn [snd].
  rewrite in_map_iff. split.
  - intros ([j g] & Hj & Hin). simpl in Hj. subst j.
    apply in_flat_map in Hin as ([j poly] & Hp & Hin).
    apply in_flat_map in Hin as (other & Ho & Hin). cbn [fst snd] in Hin.
    unfold hidden_step in Hin.
    destruct (intersects (geometry poly) (geometry other)) eqn:Ei;
      [|destruct Hin].
    destruct (geom_eqb (geometry poly) (geometry other)) eqn:Ee;
      [destruct Hin|].
    cbn [negb andb] in Hin.
    destruct (is_empty (difference (geometry poly) (geometry other))) eqn:Ed;
      [|destruct Hin].
    destruct Hin as [Heq | []]. injection Heq as -> _.
    apply In_enumerate in Hp. exists poly, other. auto.
  - intros (poly & other & Hp & Ho & Ei & Ee & Ed).
    exists (i, geometry poly). split; [reflexivity|].
    apply in_flat_map. exists (i, poly). split; [now apply In_enumerate|].
    apply in_flat_map. exists other. split; [exact Ho|].
    cbn [fst snd]. unfold hidden_step. rewrite Ei, Ee, Ed. now left.
Qed.

(** X21. A polygon is reported once for every row that hides it: its index
    label occurs in the result as many times as there are rows with a
    different geometry that intersect it and leave nothing of it outside. *)
Theorem hidden_index_multiplicity (gdf : list (row G)) (i : nat)
    (poly : row G) :
  nth_error gdf i = Some poly ->
  count_occ Nat.eq_dec (snd (find_hidden_polygons gdf)) i
  = List.length (filter (fun other => hides other poly) gdf).
Proof.
  intro Hp. unfold find_hidden_polygons. cbn [snd].
  rewrite hidden_labels_count
    by (rewrite map_fst_enumerate; apply seq_NoDup).
  destruct (find (fun ip => (fst ip =? i)%nat) (enumerate gdf)) as [[j q]|]
    eqn:Ef.
  - apply find_some in Ef as [Hin Heq]. simpl in Heq.
    apply Nat.eqb_eq in Heq. subst j. apply In_enumerate in Hin.
    rewrite Hp in Hin. injection Hin as <-. reflexivity.
  - exfalso. apply In_enumerate in Hp.
    apply (find_none _ _ Ef) in Hp. simpl in Hp.
    now rewrite Nat.eqb_refl in Hp.
Qed.

End HiddenFacts.

(** ** The further properties at concrete inputs *)

Section MoreRuns.

Import Grid Sample MoreSamples GridOverlay.
Open Scope string_scope.

Lemma generate_new_id_raises_iff_witness :
  _generate_new_id ["131010110010A01"; "1310101100100200"] "13101011001001" []
  = None.
Proof.
  apply (generate_new_id_raises_iff
           ["131010110010A01"; "1310101100100200"] "13101011001001" []).
  - intros x Hx. vm_compute in Hx.
    repeat (destruct Hx as [<- | Hx]; [reflexivity|]). destruct Hx.
  - exists "131010110010A01". split; [now left|]. split; reflexivity.
Defined.

Lemma allocated_id_is_new_witness :
  exists new_id,
    _generate_new_id two_groups_ids "13101011001001" []
    = Some (new_id, set_add new_id []) /\
    ~ In new_id (two_groups_ids ++ [])%list /\
    PyStr.startswith (PyStr.drop_last 2 "13101011001001") new_id = true /\
    String.length new_id
    = (String.length (PyStr.drop_last 2 "13101011001001") + 3)%nat.
Proof.
  apply (allocated_id_is_new two_groups_ids "13101011001001" []).
  intros x Hx _. vm_compute in Hx.
  repeat (destruct Hx as [<- | Hx];
          [eexists; split; [vm_compute; reflexivity | lia]|]).
  destruct Hx.
Defined.

Lemma successive_allocations_differ_witness :
  exists id2,
    _generate_new_id two_groups_ids "13101011001002" ["131010110010301"]
    = Some (id2, set_add id2 ["131010110010301"]) /\
    id2 <> "131010110010301".
Proof.
  apply (successive_allocations_differ two_groups_ids "13101011001001"
           "13101011001002" [] ["131010110010301"] "131010110010301").
  - reflexivity.
  - intros x Hx _. vm_compute in Hx.
    repeat (destruct Hx as [<- | Hx];
            [eexists; split; [vm_compute; reflexivity | lia]|]).
    destruct Hx.
Defined.

Lemma first_allocation_is_001_witness :
  _generate_new_id two_groups_ids "13101011002001" []
  = Some ("131010110020001", ["131010110020001"]).
Proof.
  apply (first_allocation_is_001 two_groups_ids "13101011002001" []).
  intros x Hx. vm_compute in Hx.
  repeat (destruct Hx as [<- | Hx]; [reflexivity|]).
  destruct Hx.
Defined.

Lemma allocation_past_999_repeats_witness :
  _generate_new_id ids_at_999 "131010110001" []
  = Some ("13101011001000", ["13101011001000"]) /\
  _generate_new_id ids_at_999 "131010110001" ["13101011001000"]
  = Some ("13101011001000", ["13101011001000"]).
Proof.
  apply (allocation_past_999_repeats ids_at_999 "131010110001" []
           [998; 999]%Z); reflexivity.
Defined.

Lemma are_parts_contiguous_lower_threshold_witness :
  _are_parts_contiguous halves 1 = true.
Proof.
  apply (are_parts_contiguous_lower_threshold halves threshold 1).
  - unfold threshold, Qle. simpl. lia.
  - reflexivity.
Defined.


Lemma two_target_merge_result_witness :
  exists result st',
    _merge_remaining_with_two_targets num_cols count_cols [] far_parts
      [ext_west; ext_east] "13101011001008" "n_per" threshold []
    = Some (result, st') /\
    match result with
    | None =>
        st' = [] /\
        two_target_search far_parts [ext_west; ext_east] threshold = None
    | Some (r, used_indices) =>
        exists i1 i2 t1 t2,
          used_indices = [i1; i2] /\ (i1 < i2)%nat /\
          nth_error [ext_west; ext_east] i1 = Some t1 /\
          nth_error [ext_west; ext_east] i2 = Some t2 /\
          meta r = meta t1 /\
          comb_adj r = Some 2%Z /\ was_multipart r = Some 1%Z /\
          orig_id r
          = (orig_id far_west ++ "_" ++ orig_id t1 ++ "_" ++ orig_id t2) /\
          geometry r
          = union (union (union_all (map (fun p => geometry (snd p)) far_parts))
                         (geometry t1))
                  (geometry t2) /\
          forall c, In c count_cols ->
                    num r c == num far_west c + num t1 c + num t2 c
    end.
Proof.
  assert (Hnd : NoDup (map fst far_parts)).
  { simpl. repeat constructor; simpl; intuition lia. }
  destruct (_merge_remaining_with_two_targets num_cols count_cols [] far_parts
              [ext_west; ext_east] "13101011001008" "n_per" threshold [])
    as [[result st']|] eqn:E.
  - exists result, st'. split; [reflexivity|].
    exact (two_target_merge_result num_cols count_cols [] 0%nat far_west
             [(1%nat, far_east)] [ext_west; ext_east] "13101011001008" "n_per"
             threshold [] st' result Hnd E).
  - vm_compute in E. discriminate E.
Defined.

Lemma remaining_dup_is_unresolved_groups_witness :
  exists resolved_gdf remaining_dup st',
    _resolve_multipart_by_contiguity num_cols count_cols [] three_rows
      [] "n_per" threshold []
    = Some ((resolved_gdf, remaining_dup), st') /\
    forall r,
      In r remaining_dup <->
      exists i, nth_error three_rows i = Some r /\
                group_resolved (parts_of three_rows (orig_id r)) [] threshold
                = false.
Proof.
  destruct (_resolve_multipart_by_contiguity num_cols count_cols [] three_rows
              [] "n_per" threshold [])
    as [[[resolved_gdf remaining_dup] st']|] eqn:E.
  - exists resolved_gdf, remaining_dup, st'. split; [reflexivity|].
    exact (remaining_dup_is_unresolved_groups num_cols count_cols []
             three_rows [] "n_per" threshold [] st' resolved_gdf
             remaining_dup E).
  - vm_compute in E. discriminate E.
Defined.

Lemma one_row_per_resolved_group_witness :
  exists resolved_gdf remaining_dup st',
    _resolve_multipart_by_contiguity num_cols count_cols two_groups_ids
      two_groups [middle] "n_per" threshold []
    = Some ((resolved_gdf, remaining_dup), st') /\
    List.length resolved_gdf = 2%nat.
Proof.
  destruct (_resolve_multipart_by_contiguity num_cols count_cols two_groups_ids
              two_groups [middle] "n_per" threshold [])
    as [[[resolved_gdf remaining_dup] st']|] eqn:E.
  - exists resolved_gdf, remaining_dup, st'. split; [reflexivity|].
    rewrite (one_row_per_resolved_group num_cols count_cols two_groups_ids
               two_groups [middle] "n_per" threshold [] st' resolved_gdf
               remaining_dup E).
    reflexivity.
  - vm_compute in E. discriminate E.
Defined.

Lemma resolve_with_empty_pool_witness :
  exists resolved_gdf remaining_dup,
    _resolve_multipart_by_contiguity num_cols count_cols [] three_rows []
      "n_per" threshold []
    = Some ((resolved_gdf, remaining_dup), []) /\
    Forall (fun r => comb_adj r = Some 0%Z /\ was_multipart r = Some 1%Z)
           resolved_gdf /\
    forall r,
      In r remaining_dup <->
      exists i, nth_error three_rows i = Some r /\
                _are_parts_contiguous (parts_of three_rows (orig_id r))
                  threshold
                = false.
Proof.
  exact (resolve_with_empty_pool num_cols count_cols [] three_rows "n_per"
           threshold []).
Defined.

Lemma resolved_frame_columns_witness :
  exists resolved_gdf remaining_dup st',
    _resolve_multipart_by_contiguity num_cols count_cols two_groups_ids
      two_groups [middle] "n_per" threshold []
    = Some ((resolved_gdf, remaining_dup), st') /\
    Forall (fun r =>
              String.length (poly_id r) = 15%nat /\
              forall kv, In kv (meta r) ->
                         In (fst kv) ["commune"; "commune_id"; "sregion_id"])
           resolved_gdf.
Proof.
  destruct (_resolve_multipart_by_contiguity num_cols count_cols two_groups_ids
              two_groups [middle] "n_per" threshold [])
    as [[[resolved_gdf remaining_dup] st']|] eqn:E.
  - exists resolved_gdf, remaining_dup, st'. split; [reflexivity|].
    exact (resolved_frame_columns num_cols count_cols two_groups_ids
             two_groups [middle] "n_per" threshold [] st' resolved_gdf
             remaining_dup E).
  - vm_compute in E. discriminate E.
Defined.

Lemma relabeller_init_splits_columns_witness :
  relabeller_init 16 num_cols ["n_per"; "n_hog"] = None /\
  forall c,
    (In c num_cols <-> In c count_cols \/ In c (avg_cols num_cols count_cols)) /\
    ~ (In c count_cols /\ In c (avg_cols num_cols count_cols)).
Proof.
  split.
  - apply (proj2 (proj1 (relabeller_init_splits_columns 16 num_cols
                           ["n_per"; "n_hog"]))).
    exists "n_hog". split; [simpl; tauto|]. simpl. intuition discriminate.
  - apply (proj2 (relabeller_init_splits_columns 16 num_cols count_cols)
             (mkRelabeller 16 num_cols count_cols [])).
    reflexivity.
Defined.

Lemma plain_relabel_raises_iff_witness :
  _relabel_multipart_blocks 16
    [raw (rect 0 0 1 1) "13101011001001"; raw (rect 2 0 1 1) "1310101100100A"]
  = None.
Proof.
  apply (plain_relabel_raises_iff 16
           [raw (rect 0 0 1 1) "13101011001001";
            raw (rect 2 0 1 1) "1310101100100A"]).
  - intros r Hr.
    repeat (destruct Hr as [<- | Hr]; [split; [reflexivity | simpl; lia]|]).
    destruct Hr.
  - exists (raw (rect 2 0 1 1) "1310101100100A").
    split; [right; now left | reflexivity].
Defined.

Lemma plain_relabel_rows_witness :
  exists out data0,
    _relabel_multipart_blocks 16 plain_input = Some out /\
    map_option normalise_id plain_input = Some data0 /\
    Forall (fun r =>
              PyStr.startswith (orig_id r) (poly_id r) = true /\
              ((was_multipart r = Some 0%Z /\
                count_occ string_dec (map poly_id data0) (orig_id r) = 1%nat)
               \/ (was_multipart r = Some 1%Z /\
                   (1 < count_occ string_dec (map poly_id data0)
                          (orig_id r))%nat)))
           out.
Proof.
  destruct (_relabel_multipart_blocks 16 plain_input) as [out|] eqn:E.
  - destruct (plain_relabel_rows 16 plain_input out E) as (data0 & E0 & Hall).
    exists out, data0. auto.
  - vm_compute in E. discriminate E.
Defined.

Lemma plain_relabel_keeps_every_row_witness :
  exists out,
    _relabel_multipart_blocks 16 plain_input = Some out /\
    List.length out = List.length plain_input.
Proof.
  pose (data0 := match map_option normalise_id plain_input with
                 | Some d => d
                 | None => []
                 end).
  apply (plain_relabel_keeps_every_row 16 plain_input data0).
  - reflexivity.
  - intro x.
    pose proof (count_occ_bound string_dec x (map poly_id data0)) as Hb.
    change (List.length (map poly_id data0)) with 4%nat in Hb. lia.
Defined.

Lemma plain_relabel_exact_width_witness :
  exists out,
    _relabel_multipart_blocks 16 plain_input = Some out /\
    Forall (fun r => String.length (poly_id r) = 16%nat) out.
Proof.
  pose (data0 := match map_option normalise_id plain_input with
                 | Some d => d
                 | None => []
                 end).
  destruct (_relabel_multipart_blocks 16 plain_input) as [out|] eqn:E.
  - exists out. split; [reflexivity|].
    apply (plain_relabel_exact_width 16 plain_input data0 out).
    + reflexivity.
    + intros r Hr. vm_compute in Hr.
      repeat (destruct Hr as [<- | Hr]; [simpl; lia|]).
      destruct Hr.
    + intro x.
      pose proof (count_occ_bound string_dec x (map poly_id data0)) as Hb.
      change (List.length (map poly_id data0)) with 4%nat in Hb. lia.
    + exact E.
  - vm_compute in E. discriminate E.
Defined.

Lemma plain_relabel_ids_distinct_witness :
  exists out,
    _relabel_multipart_blocks 16 plain_input = Some out /\
    NoDup (map poly_id out).
Proof.
  pose (data0 := match map_option normalise_id plain_input with
                 | Some d => d
                 | None => []
                 end).
  destruct (_relabel_multipart_blocks 16 plain_input) as [out|] eqn:E.
  - exists out. split; [reflexivity|].
    apply (plain_relabel_ids_distinct 16 plain_input data0 out 14%nat).
    + reflexivity.
    + intros r Hr. vm_compute in Hr.
      repeat (destruct Hr as [<- | Hr]; [reflexivity|]).
      destruct Hr.
    + lia.
    + intro x.
      pose proof (count_occ_bound string_dec x (map poly_id data0)) as Hb.
      change (List.length (map poly_id data0)) with 4%nat in Hb. lia.
    + exact E.
  - vm_compute in E. discriminate E.
Defined.

Lemma hidden_index_iff_witness :
  In 1%nat (snd (find_hidden_polygons nested)) /\
  ~ In 0%nat (snd (find_hidden_polygons nested)).
Proof.
  split.
  - apply (proj2 (hidden_index_iff nested 1%nat)).
    exists inner_a, big. split; [reflexivity|]. split; [now left|].
    split; [|split]; reflexivity.
  - intro Hin.
    apply (proj1 (hidden_index_iff nested 0%nat)) in Hin
      as (poly & other & Hp & Ho & Hi & He & Hd).
    injection Hp as <-. vm_compute in Ho.
    repeat (destruct Ho as [<- | Ho];
            [vm_compute in He, Hd; congruence|]).
    destruct Ho.
Defined.

Lemma hidden_index_multiplicity_witness :
  count_occ Nat.eq_dec (snd (find_hidden_polygons nested)) 1%nat = 2%nat.
Proof.
  exact (hidden_index_multiplicity nested 1%nat inner_a eq_refl).
Defined.

End MoreRuns.
